(** * cuda_hgemm: the [Matrix] host/device buffer pair of [src/common/matrix.h]

    A shallow embedding of class [Matrix] and of the part of the C++ and CUDA
    runtime it calls, followed by the properties of its methods.

    - IEEE 754 arithmetic is the executable specification of the Standard
      Library ([SpecFloat]): [float] is binary32, [double] is binary64 and
      [half] is a 16-bit pattern decoded as binary16.
    - Host and device memory are two stores of blocks addressed by their base
      pointer; [Matrix] objects live in a third store, addressed by [this],
      so that two pointers to one object alias.
    - A method is a computation in a state-and-exit monad over that world:
      a failed [HGEMM_CHECK] ends the run with the world as it was. *)

From Stdlib Require Import ZArith Lia Bool.
From Stdlib Require Import Floats.SpecFloat.
From stdpp Require Import base tactics option list gmap strings.

Open Scope Z_scope.

(** ** Floating point formats *)

Abbreviation float := spec_float (only parsing).
Abbreviation double := spec_float (only parsing).

(** [half] is CUDA's [__half]: a struct around an [unsigned short]. *)
Record half := Half { half_bits : Z }.

Definition half_sign (h : half) : bool := Z.testbit (half_bits h) 15.
Definition half_exp (h : half) : Z := Z.land (Z.shiftr (half_bits h) 10) 0x1F.
Definition half_frac (h : half) : Z := Z.land (half_bits h) 0x3FF.

(** The binary16 number a bit pattern stands for. *)
Definition half_value (h : half) : spec_float :=
  let s := half_sign h in
  let e := half_exp h in
  let f := half_frac h in
  if e =? 0 then
    match f with
    | Zpos m => S754_finite s m (-24)
    | _ => S754_zero s
    end
  else if e =? 0x1F then
    if f =? 0 then S754_infinity s else S754_nan
  else
    match Z.lor f 0x400 with
    | Zpos m => S754_finite s m (e - 25)
    | _ => S754_nan
    end.

Definition sign_bit (s : bool) : Z := if s then 0x8000 else 0.

(** The bit pattern of a binary16 number; NaN is CUDA's canonical 0x7FFF. *)
Definition half_of_value (x : spec_float) : half :=
  match x with
  | S754_zero s => Half (sign_bit s)
  | S754_infinity s => Half (sign_bit s + 0x7C00)
  | S754_nan => Half 0x7FFF
  | S754_finite s m e =>
      if Zpos (digits2_pos m) =? 11
      then Half (sign_bit s + (e + 25) * 0x400 + (Zpos m - 0x400))
      else Half (sign_bit s + Zpos m)
  end.

(** Conversion of a number to the format [prec], [emax], to nearest even. *)
Definition convert (prec emax : Z) (x : spec_float) : spec_float :=
  match x with
  | S754_finite s m e => binary_round prec emax s m e
  | _ => x
  end.

Definition __half2float (h : half) : float := convert 24 128 (half_value h).
Definition __float2half (x : float) : half := half_of_value (convert 11 16 x).

(** [static_cast<double>] of a [float], and the narrowing of an assignment
    of a [double] to a [float] variable. *)
Definition float_to_double (x : float) : double := convert 53 1024 x.
Definition double_to_float (x : double) : float := convert 24 128 x.

(** [double(n)] for a [size_t]. *)
Definition size_t_to_double (n : Z) : double := binary_normalize 53 1024 n 0 false.

Definition fadd : float -> float -> float := SFadd 24 128.
Definition fsub : float -> float -> float := SFsub 24 128.
Definition ddiv : double -> double -> double := SFdiv 53 1024.

(** [std::abs] on [float], and [std::max(a, b)], which is [(a < b) ? b : a]. *)
Definition std_abs (x : float) : float := SFabs x.
Definition std_max (a b : float) : float := if SFltb a b then b else a.

(** The literal [0.0], and a [float] literal [m * 2^e]. *)
Definition fzero : float := S754_zero false.
Definition float_lit (m e : Z) : float := binary_normalize 24 128 m e false.

Definition is_nan (x : spec_float) : bool :=
  match x with S754_nan => true | _ => false end.

(** Neither an infinity nor a NaN. *)
Definition is_finite (x : spec_float) : bool :=
  match x with S754_zero _ | S754_finite _ _ _ => true | _ => false end.

(** [+0], a positive number or [+inf]: what [0 <= x] means for a float. *)
Definition nonneg (x : spec_float) : bool := SFleb fzero x.

Definition half_finite (h : half) : bool := is_finite (half_value h).

(** ** [size_t] arithmetic *)

Definition SIZE_WIDTH : Z := 64.
Definition size_t_mul (a b : Z) : Z := (a * b) mod 2 ^ SIZE_WIDTH.
Definition sizeof_half : Z := 2.

(** ** The two memories and the object store *)

(** A memory is a set of allocated blocks, each an array of [half] addressed
    by its base pointer, with a bump allocator: [brk] is the next free
    address, [limit] the end of the memory, and [raw] what an address holds
    before anything has been written to it. *)
Record Mem := {
  blocks : gmap Z (list half);
  brk : Z;
  limit : Z;
  raw : Z -> half
}.

Record Matrix := {
  m_row : Z;
  m_col : Z;
  m_name : string;
  m_min : float;
  m_max : float;
  m_elem_num : Z;
  m_data : Z;
  m_gpu_data : Z;
  m_max_diff : float;
  m_avg_diff : float
}.

Record World := {
  host : Mem;
  gpu : Mem;
  objects : gmap Z Matrix
}.

Definition nullptr : Z := 0.

Definition with_blocks (b : gmap Z (list half)) (m : Mem) : Mem :=
  {| blocks := b; brk := brk m; limit := limit m; raw := raw m |}.

Definition with_host (h : Mem) (w : World) : World :=
  {| host := h; gpu := gpu w; objects := objects w |}.
Definition with_gpu (g : Mem) (w : World) : World :=
  {| host := host w; gpu := g; objects := objects w |}.
Definition with_objects (o : gmap Z Matrix) (w : World) : World :=
  {| host := host w; gpu := gpu w; objects := o |}.

Definition set_elem_num (v : Z) (m : Matrix) : Matrix :=
  {| m_row := m_row m; m_col := m_col m; m_name := m_name m; m_min := m_min m;
     m_max := m_max m; m_elem_num := v; m_data := m_data m;
     m_gpu_data := m_gpu_data m; m_max_diff := m_max_diff m;
     m_avg_diff := m_avg_diff m |}.
Definition set_data (v : Z) (m : Matrix) : Matrix :=
  {| m_row := m_row m; m_col := m_col m; m_name := m_name m; m_min := m_min m;
     m_max := m_max m; m_elem_num := m_elem_num m; m_data := v;
     m_gpu_data := m_gpu_data m; m_max_diff := m_max_diff m;
     m_avg_diff := m_avg_diff m |}.
Definition set_gpu_data (v : Z) (m : Matrix) : Matrix :=
  {| m_row := m_row m; m_col := m_col m; m_name := m_name m; m_min := m_min m;
     m_max := m_max m; m_elem_num := m_elem_num m; m_data := m_data m;
     m_gpu_data := v; m_max_diff := m_max_diff m;
     m_avg_diff := m_avg_diff m |}.
Definition set_max_diff (v : float) (m : Matrix) : Matrix :=
  {| m_row := m_row m; m_col := m_col m; m_name := m_name m; m_min := m_min m;
     m_max := m_max m; m_elem_num := m_elem_num m; m_data := m_data m;
     m_gpu_data := m_gpu_data m; m_max_diff := v;
     m_avg_diff := m_avg_diff m |}.
Definition set_avg_diff (v : float) (m : Matrix) : Matrix :=
  {| m_row := m_row m; m_col := m_col m; m_name := m_name m; m_min := m_min m;
     m_max := m_max m; m_elem_num := m_elem_num m; m_data := m_data m;
     m_gpu_data := m_gpu_data m; m_max_diff := m_max_diff m;
     m_avg_diff := v |}.

(** What a fresh block of [n] elements at [brk] holds: whatever was there. *)
Definition fresh_block (m : Mem) (n : Z) : list half :=
  (fun i => raw m (brk m + sizeof_half * i)) <$> seqZ 0 n.

(** Allocation of [bytes] bytes: the block starts at [brk]; a block takes at
    least one byte, so that no two blocks share their base. *)
Definition mem_alloc (m : Mem) (bytes : Z) : option (Z * Mem) :=
  if decide (brk m + Z.max 1 bytes <= limit m)
  then Some (brk m,
             {| blocks := <[brk m := fresh_block m (bytes / sizeof_half)]> (blocks m);
                brk := brk m + Z.max 1 bytes;
                limit := limit m;
                raw := raw m |})
  else None.

(** ** Computations: state and fatal exit *)

Inductive fault :=
  | CheckFailed      (* a failed HGEMM_CHECK: exit(EXIT_FAILURE) *)
  | CudaError        (* a CUDA runtime call that did not return cudaSuccess *)
  | BadAlloc         (* std::bad_alloc out of new[] *)
  | InvalidAccess.   (* a read or write through a pointer to nothing *)

Inductive outcome (A : Type) :=
  | Ok (a : A) (w : World)
  | Fatal (f : fault) (w : World).
Arguments Ok {A} a w.
Arguments Fatal {A} f w.

Definition M (A : Type) : Type := World -> outcome A.

#[global] Instance M_ret : MRet M := fun A a w => Ok a w.
#[global] Instance M_bind : MBind M := fun A B f c w =>
  match c w with
  | Ok a w' => f a w'
  | Fatal e w' => Fatal e w'
  end.

Definition fatal {A} (f : fault) : M A := fun w => Fatal f w.

(** [for (size_t i = 0; i < n; ++i) body]. *)
Fixpoint for_from (k : nat) (i : Z) (body : Z -> M unit) : M unit :=
  match k with
  | O => mret tt
  | S k' => body i ;; for_from k' (i + 1) body
  end.
Definition for_size_t (n : Z) (body : Z -> M unit) : M unit :=
  for_from (Z.to_nat n) 0 body.

(** [*this] and an assignment to a member of [*this]. *)
Definition deref (this : Z) : M Matrix := fun w =>
  match objects w !! this with
  | Some m => Ok m w
  | None => Fatal InvalidAccess w
  end.

Definition assign (this : Z) (f : Matrix -> Matrix) : M unit := fun w =>
  match objects w !! this with
  | Some m => Ok tt (with_objects (<[this := f m]> (objects w)) w)
  | None => Fatal InvalidAccess w
  end.

(** [p[i]] and [p[i] = v] on a host array. *)
Definition load_host (p i : Z) : M half := fun w =>
  match blocks (host w) !! p with
  | Some b =>
      match b !! Z.to_nat i with
      | Some v => if decide (0 <= i) then Ok v w else Fatal InvalidAccess w
      | None => Fatal InvalidAccess w
      end
  | None => Fatal InvalidAccess w
  end.

Definition store_host (p i : Z) (v : half) : M unit := fun w =>
  match blocks (host w) !! p with
  | Some b =>
      if decide (0 <= i < Z.of_nat (length b))
      then Ok tt (with_host (with_blocks (<[p := <[Z.to_nat i := v]> b]> (blocks (host w))) (host w)) w)
      else Fatal InvalidAccess w
  | None => Fatal InvalidAccess w
  end.

(** [new half[n]]: [std::bad_array_new_length] when the byte count does not
    fit [size_t], [std::bad_alloc] when the heap cannot hold the block. *)
Definition new_half_array (n : Z) : M Z := fun w =>
  if decide (n * sizeof_half < 2 ^ SIZE_WIDTH) then
    match mem_alloc (host w) (n * sizeof_half) with
    | Some (p, h) => Ok p (with_host h w)
    | None => Fatal BadAlloc w
    end
  else Fatal BadAlloc w.

(** ** The CUDA runtime *)

Inductive cudaError_t :=
  | cudaSuccess
  | cudaErrorInvalidValue
  | cudaErrorMemoryAllocation.

Inductive cudaMemcpyKind :=
  | cudaMemcpyHostToDevice
  | cudaMemcpyDeviceToHost.

(** [cudaMalloc(devPtr, size)]; [devPtr] is given as the assignment to the
    pointer it points to.  A request for no byte succeeds with a null
    pointer. *)
Definition cudaMalloc (devPtr : Z -> M unit) (size : Z) : M cudaError_t := fun w =>
  if decide (size = 0) then (devPtr nullptr ;; mret cudaSuccess) w
  else
    match mem_alloc (gpu w) size with
    | Some (p, g) => (devPtr p ;; mret cudaSuccess) (with_gpu g w)
    | None => Ok cudaErrorMemoryAllocation w
    end.

(** The first [n] elements of [dst] replaced by those of [src]. *)
Definition overwrite (n : nat) (src dst : list half) : list half :=
  take n src ++ drop n dst.

(** [cudaMemcpy(dst, src, count, kind)], blocking; [count] bytes are
    [count / sizeof(half)] elements. *)
Definition cudaMemcpy (dst src count : Z) (kind : cudaMemcpyKind) : M cudaError_t := fun w =>
  let n := Z.to_nat (count / sizeof_half) in
  match kind with
  | cudaMemcpyHostToDevice =>
      match blocks (host w) !! src, blocks (gpu w) !! dst with
      | Some s, Some d =>
          if decide (n <= length s /\ n <= length d)%nat
          then Ok cudaSuccess
                 (with_gpu (with_blocks (<[dst := overwrite n s d]> (blocks (gpu w))) (gpu w)) w)
          else Ok cudaErrorInvalidValue w
      | _, _ => Ok cudaErrorInvalidValue w
      end
  | cudaMemcpyDeviceToHost =>
      match blocks (gpu w) !! src, blocks (host w) !! dst with
      | Some s, Some d =>
          if decide (n <= length s /\ n <= length d)%nat
          then Ok cudaSuccess
                 (with_host (with_blocks (<[dst := overwrite n s d]> (blocks (host w))) (host w)) w)
          else Ok cudaErrorInvalidValue w
      | _, _ => Ok cudaErrorInvalidValue w
      end
  end.

(** [cudaMemset(devPtr, value, count)]: every byte becomes the low byte of
    [value], so every element the pattern of two such bytes. *)
Definition cudaMemset (devPtr value count : Z) : M cudaError_t := fun w =>
  let n := Z.to_nat (count / sizeof_half) in
  let byte := value mod 256 in
  match blocks (gpu w) !! devPtr with
  | Some d =>
      if decide (n <= length d)%nat
      then Ok cudaSuccess
             (with_gpu (with_blocks (<[devPtr := overwrite n (replicate n (Half (byte + 256 * byte))) d]>
                                       (blocks (gpu w))) (gpu w)) w)
      else Ok cudaErrorInvalidValue w
  | None => Ok cudaErrorInvalidValue w
  end.

(** ** The macros of [common.h] *)

(** Modelled from the spec: [HGEMM_CHECK] is defined in [common.h], which is
    not among the sources.  A precondition "is either satisfied or the
    program aborts with a descriptive fatal check": the run ends at once. *)
Definition HGEMM_CHECK (x : bool) : M unit :=
  if x then mret tt else fatal CheckFailed.

(** Modelled from the spec: [HGEMM_CHECK_EQ(x, y)] of [common.h], the fatal
    check of [x == y]. *)
Definition HGEMM_CHECK_EQ (x y : Z) : M unit := HGEMM_CHECK (x =? y).

(** Modelled from the spec: [HGEMM_CHECK_GT(x, y)] of [common.h], the fatal
    check of [x > y]. *)
Definition HGEMM_CHECK_GT (x y : Z) : M unit := HGEMM_CHECK (x >? y).

(** Modelled from the spec: [HGEMM_CHECK_CUDART_ERROR(call)] of [common.h];
    "any underlying accelerator error during allocation, transfer, or memory
    fill is treated as an unrecoverable fault". *)
Definition HGEMM_CHECK_CUDART_ERROR (call : M cudaError_t) : M unit :=
  err ← call;
  match err with
  | cudaSuccess => mret tt
  | _ => fatal CudaError
  end.

(** Modelled from the spec: [HLOG] of [common.h] prints a diagnostic line,
    whose "format/content ... is not part of the functional contract"; it
    changes nothing in the world. *)
Definition HLOG : M unit := mret tt.

(** A pointer used as a condition. *)
Definition non_null (p : Z) : bool := negb (p =? nullptr).

(** ** class Matrix *)

(** The constructor, on the storage at [this].  [uniform i] is what the
    [i]-th call [uniform(engine)] returns. *)
Definition Matrix_ctor (this row col : Z) (name : string) (min max : float)
    (uniform : Z -> float) : M unit :=
  (fun w => Ok tt (with_objects
     (<[this := {| m_row := row; m_col := col; m_name := name;
                   m_min := min; m_max := max; m_elem_num := 0;
                   m_data := nullptr; m_gpu_data := nullptr;
                   m_max_diff := fzero; m_avg_diff := fzero |}]> (objects w)) w)) ;;
  m ← deref this;
  HGEMM_CHECK_GT (m_row m) 0 ;;
  HGEMM_CHECK_GT (m_col m) 0 ;;
  assign this (set_elem_num (size_t_mul (m_row m) (m_col m))) ;;
  m ← deref this;
  HGEMM_CHECK_GT (m_elem_num m) 0 ;;
  p ← new_half_array (m_elem_num m);
  assign this (set_data p) ;;
  m ← deref this;
  HGEMM_CHECK (non_null (m_data m)) ;;
  HGEMM_CHECK_CUDART_ERROR
    (cudaMalloc (fun p => assign this (set_gpu_data p))
                (size_t_mul (m_elem_num m) sizeof_half)) ;;
  m ← deref this;
  HGEMM_CHECK (non_null (m_gpu_data m)) ;;
  for_size_t (m_elem_num m) (fun i =>
    store_host (m_data m) i (__float2half (uniform i))) ;;
  HGEMM_CHECK_CUDART_ERROR
    (cudaMemcpy (m_gpu_data m) (m_data m)
                (size_t_mul (m_elem_num m) sizeof_half) cudaMemcpyHostToDevice) ;;
  HLOG.

Definition getRow (this : Z) : M Z := m ← deref this; mret (m_row m).
Definition getCol (this : Z) : M Z := m ← deref this; mret (m_col m).
Definition getElemNum (this : Z) : M Z := m ← deref this; mret (m_elem_num m).
Definition getData (this : Z) : M Z := m ← deref this; mret (m_data m).
Definition getGpuData (this : Z) : M Z := m ← deref this; mret (m_gpu_data m).

Definition moveToHost (this : Z) : M unit :=
  m ← deref this;
  HGEMM_CHECK_CUDART_ERROR
    (cudaMemcpy (m_data m) (m_gpu_data m)
                (size_t_mul (m_elem_num m) sizeof_half) cudaMemcpyDeviceToHost).

Definition zeros (this : Z) : M unit :=
  m ← deref this;
  HGEMM_CHECK_CUDART_ERROR
    (cudaMemset (m_gpu_data m) 0x00 (size_t_mul (m_elem_num m) sizeof_half)) ;;
  moveToHost this.

Definition random (this : Z) (min max : float) (uniform : Z -> float) : M unit :=
  m ← deref this;
  for_size_t (m_elem_num m) (fun i =>
    store_host (m_data m) i (__float2half (uniform i))) ;;
  moveToHost this.

Definition tearUp (this base : Z) : M unit :=
  HGEMM_CHECK (non_null base) ;;
  m ← deref this;
  r ← getRow base;
  HGEMM_CHECK_EQ (m_row m) r ;;
  c ← getCol base;
  HGEMM_CHECK_EQ (m_col m) c ;;
  src ← getData base;
  HGEMM_CHECK_CUDART_ERROR
    (cudaMemcpy (m_gpu_data m) src
                (size_t_mul (m_elem_num m) sizeof_half) cudaMemcpyHostToDevice).

(** The [diff] of one iteration of [checkValue]: the [float] difference, its
    absolute value, through [double] and back into the [float] variable. *)
Definition elem_diff (x y : half) : float :=
  double_to_float (float_to_double (std_abs (fsub (__half2float x) (__half2float y)))).

Definition checkValue (this base : Z) : M unit :=
  HGEMM_CHECK (non_null base) ;;
  m ← deref this;
  r ← getRow base;
  HGEMM_CHECK_EQ (m_row m) r ;;
  c ← getCol base;
  HGEMM_CHECK_EQ (m_col m) c ;;
  assign this (set_max_diff fzero) ;;
  assign this (set_avg_diff fzero) ;;
  for_size_t (m_elem_num m) (fun i =>
    x ← load_host (m_data m) i;
    bdata ← getData base;
    y ← load_host bdata i;
    let diff := elem_diff x y in
    assign this (fun m => set_max_diff (std_max (m_max_diff m) diff) m) ;;
    assign this (fun m => set_avg_diff (fadd (m_avg_diff m) diff) m)) ;;
  assign this (fun m =>
    set_avg_diff (double_to_float
                    (ddiv (float_to_double (m_avg_diff m))
                          (size_t_to_double (m_elem_num m)))) m) ;;
  HLOG.

(** The device side of a kernel launched on a device pointer: the block at
    [p] now holds [content].  Kernels are not part of this class; this is how
    the device buffer changes behind its back. *)
Definition kernel_write (p : Z) (content : list half) : M unit := fun w =>
  match blocks (gpu w) !! p with
  | Some d =>
      if decide (length content = length d)
      then Ok tt (with_gpu (with_blocks (<[p := content]> (blocks (gpu w))) (gpu w)) w)
      else Fatal InvalidAccess w
  | None => Fatal InvalidAccess w
  end.

(** ** Observations *)

(** The content of the host and of the device buffer of the object at
    [this], when there is one. *)
Definition host_content (w : World) (this : Z) : option (list half) :=
  m ← objects w !! this; blocks (host w) !! m_data m.
Definition device_content (w : World) (this : Z) : option (list half) :=
  m ← objects w !! this; blocks (gpu w) !! m_gpu_data m.

(** A world with no object and two empty memories of 1 MiB. *)
Definition empty_mem (base : Z) : Mem :=
  {| blocks := ∅; brk := base; limit := base + 0x100000;
     raw := fun _ => Half 0xDEAD |}.
Definition world0 : World :=
  {| host := empty_mem 0x1000; gpu := empty_mem 0x7000000; objects := ∅ |}.

(** ** Well-formed worlds *)

(** Allocated blocks lie below [brk] and none is at the null pointer. *)
Definition mem_ok (m : Mem) : Prop :=
  0 < brk m /\ forall p b, blocks m !! p = Some b -> 0 < p < brk m.

(** What the constructor establishes for an object, and every method
    keeps: the element count is the [size_t] product of the shape, and both
    buffers are allocated blocks of that many elements. *)
Record matrix_ok (w : World) (m : Matrix) : Prop := {
  ok_row : 0 < m_row m;
  ok_col : 0 < m_col m;
  ok_elem : m_elem_num m = size_t_mul (m_row m) (m_col m);
  ok_elem_pos : 0 < m_elem_num m;
  ok_bytes : m_elem_num m * sizeof_half < 2 ^ SIZE_WIDTH;
  ok_data : exists h, blocks (host w) !! m_data m = Some h /\
                      Z.of_nat (length h) = m_elem_num m;
  ok_gpu_data : exists d, blocks (gpu w) !! m_gpu_data m = Some d /\
                          Z.of_nat (length d) = m_elem_num m
}.

(** Every live object is well formed, no object is at the null pointer, and
    two objects never share a buffer (copying is disallowed). *)
Record world_ok (w : World) : Prop := {
  ok_host : mem_ok (host w);
  ok_gpu : mem_ok (gpu w);
  ok_null : objects w !! nullptr = None;
  ok_objects : forall a m, objects w !! a = Some m -> matrix_ok w m;
  ok_separate : forall a b ma mb, a <> b ->
    objects w !! a = Some ma -> objects w !! b = Some mb ->
    m_data ma <> m_data mb /\ m_gpu_data ma <> m_gpu_data mb
}.

(** Host and device buffer of the object at [this] hold the same content. *)
Definition synced (w : World) (this : Z) : Prop :=
  is_Some (host_content w this) /\ host_content w this = device_content w this.

(** The world a computation ends in, and whether it ended by a fault. *)
Definition world_after {A} (c : M A) (w : World) : World :=
  match c w with Ok _ w' => w' | Fatal _ w' => w' end.
Definition fault_of {A} (c : M A) (w : World) : option fault :=
  match c w with Ok _ _ => None | Fatal f _ => Some f end.

(** The block a loop of stores [p[j] = f j], [j] from [i], [k] times, leaves. *)
Definition fill (f : Z -> half) (i : Z) (k : nat) (b : list half) : list half :=
  take (Z.to_nat i) b ++ (f <$> seqZ i (Z.of_nat k)) ++ drop (Z.to_nat i + k) b.

(** The content [n] draws leave in a buffer. *)
Definition drawn (uniform : Z -> float) (n : Z) : list half :=
  (fun i => __float2half (uniform i)) <$> seqZ 0 n.

(** ** The statistics of [checkValue], on lists *)

(** The per-element differences of two buffers, in index order. *)
Definition abs_diffs (xs ys : list half) : list float := zip_with elem_diff xs ys.

(** The running maximum and the running sum of the loop, from [0.0]. *)
Definition running_max (ds : list float) : float := fold_left std_max ds fzero.
Definition running_sum (ds : list float) : float := fold_left fadd ds fzero.

(** [s /= double(n)] on a [float] variable [s]. *)
Definition mean_of (s : float) (n : Z) : float :=
  double_to_float (ddiv (float_to_double s) (size_t_to_double n)).

(** ** Signs and order of floating-point numbers *)

(** A number of sign [s]: a zero, a finite number or an infinity, not a NaN. *)
Definition signed (s : bool) (x : spec_float) : Prop :=
  match x with
  | S754_zero s' | S754_infinity s' | S754_finite s' _ _ => s' = s
  | S754_nan => False
  end.

(** [SFcompare] on numbers that are not NaN is the lexicographic order of
    these triples. *)
Definition rank (x : spec_float) : Z * Z * Z :=
  match x with
  | S754_infinity true => (-2, 0, 0)
  | S754_finite true m e => (-1, - e, - Zpos m)
  | S754_zero _ => (0, 0, 0)
  | S754_nan => (0, 0, 0)
  | S754_finite false m e => (1, e, Zpos m)
  | S754_infinity false => (2, 0, 0)
  end.

Definition lex (a b : Z * Z * Z) : comparison :=
  match a, b with
  | (a1, a2, a3), (b1, b2, b3) =>
      match a1 ?= b1 with
      | Eq => match a2 ?= b2 with Eq => a3 ?= b3 | c => c end
      | c => c
      end
  end.

(** ** The precondition of [tearUp] and [checkValue] *)

(** [base] is null, or its shape differs from that of [this]. *)
Definition shape_mismatch (w : World) (this base : Z) : Prop :=
  base = nullptr \/
  exists m mb, objects w !! this = Some m /\ objects w !! base = Some mb /\
               (m_row m <> m_row mb \/ m_col m <> m_col mb).

(** No element of a buffer is an infinity or a NaN. *)
Definition all_finite (xs : list half) : Prop := forallb half_finite xs = true.

(** ** The world a successful construction leaves *)

(** Both memories have one more block, at their [brk], holding the draws
    converted to half; the object at [this] points to them. *)
Definition constructed (w : World) (this row col : Z) (name : string)
    (min max : float) (uniform : Z -> float) : World :=
  {| host := {| blocks := <[brk (host w) := drawn uniform (row * col)]> (blocks (host w));
                brk := brk (host w) + row * col * sizeof_half;
                limit := limit (host w); raw := raw (host w) |};
     gpu := {| blocks := <[brk (gpu w) := drawn uniform (row * col)]> (blocks (gpu w));
               brk := brk (gpu w) + row * col * sizeof_half;
               limit := limit (gpu w); raw := raw (gpu w) |};
     objects := <[this := {| m_row := row; m_col := col; m_name := name;
                             m_min := min; m_max := max; m_elem_num := row * col;
                             m_data := brk (host w); m_gpu_data := brk (gpu w);
                             m_max_diff := fzero; m_avg_diff := fzero |}]> (objects w) |}.

(** ** Concrete runs *)

(** The addresses of two [Matrix] objects, and the default range. *)
Definition obj_A : Z := 0x7ffc00.
Definition obj_B : Z := 0x7ffc40.
Definition default_min : float := float_lit (-2) 0.
Definition default_max : float := float_lit 2 0.

(** [A] is 2 x 2 with draws -2, -1, 0, 1 and [B] is 2 x 2 with draws
    -1.5, -0.5, 0.5, 1.5. *)
Definition draws_A (i : Z) : float := float_lit (i - 2) 0.
Definition draws_B (i : Z) : float := float_lit (2 * i - 3) (-1).
Definition world_A : World :=
  world_after (Matrix_ctor obj_A 2 2 "A" default_min default_max draws_A) world0.
Definition world_AB : World :=
  world_after (Matrix_ctor obj_B 2 2 "B" default_min default_max draws_B) world_A.
Definition matrix_A : Matrix :=
  {| m_row := 2; m_col := 2; m_name := "A"; m_min := default_min;
     m_max := default_max; m_elem_num := 4; m_data := 0x1000;
     m_gpu_data := 0x7000000; m_max_diff := fzero; m_avg_diff := fzero |}.
Definition matrix_B : Matrix :=
  {| m_row := 2; m_col := 2; m_name := "B"; m_min := default_min;
     m_max := default_max; m_elem_num := 4; m_data := 0x1008;
     m_gpu_data := 0x7000008; m_max_diff := fzero; m_avg_diff := fzero |}.

(** [A] is 1 x 1 holding 1.0; [random] is then called with the draw 1.5. *)
Definition world_one : World :=
  world_after (Matrix_ctor obj_A 1 1 "A" default_min default_max
                 (fun _ => float_lit 1 0)) world0.
Definition world_one_random : World :=
  world_after (random obj_A default_min default_max (fun _ => float_lit 3 (-1)))
    world_one.

(** [A] and [B] are 1 x 1 over the range [2^20, 2^21): the draw 2^20 is
    beyond the largest half, 65504, and converts to +inf. *)
Definition world_inf : World :=
  world_after
    (Matrix_ctor obj_A 1 1 "A" (float_lit 1 20) (float_lit 1 21) (fun _ => float_lit 1 20) ;;
     Matrix_ctor obj_B 1 1 "B" (float_lit 1 20) (float_lit 1 21) (fun _ => float_lit 1 20))
    world0.

(** [A] is 1 x 3 holding 1.5 and [B] is 1 x 3 holding -2^-22. *)
Definition world_round : World :=
  world_after
    (Matrix_ctor obj_A 1 3 "A" default_min default_max (fun _ => float_lit 3 (-1)) ;;
     Matrix_ctor obj_B 1 3 "B" default_min default_max (fun _ => float_lit (-1) (-22)))
    world0.

(** [A.tearUp(&B)] on [world_AB]: the device buffer of [A] now differs from
    its host buffer. *)
Definition world_torn : World := world_after (tearUp obj_A obj_B) world_AB.

(** The statistics stored in the object at [this]. *)
Definition stats (w : World) (this : Z) : option (float * float) :=
  (fun m => (m_max_diff m, m_avg_diff m)) <$> objects w !! this.

(** ** The destructor *)

(** [delete[] p] on a pointer [new half[n]] returned: the block is gone.  On
    any other pointer the behaviour is undefined. *)
Definition delete_half_array (p : Z) : M unit := fun w =>
  match blocks (host w) !! p with
  | Some _ => Ok tt (with_host (with_blocks (delete p (blocks (host w))) (host w)) w)
  | None => Fatal InvalidAccess w
  end.

(** [cudaFree(devPtr)]: nothing to do for a null pointer, an error for a
    pointer [cudaMalloc] did not return. *)
Definition cudaFree (devPtr : Z) : M cudaError_t := fun w =>
  if decide (devPtr = nullptr) then Ok cudaSuccess w
  else
    match blocks (gpu w) !! devPtr with
    | Some _ => Ok cudaSuccess
                  (with_gpu (with_blocks (delete devPtr (blocks (gpu w))) (gpu w)) w)
    | None => Ok cudaErrorInvalidValue w
    end.

(** The storage at [this] no longer holds an object. *)
Definition end_of_lifetime (this : Z) : M unit := fun w =>
  Ok tt (with_objects (delete this (objects w)) w).

(** [~Matrix()] on the object at [this]; the lifetime of the object ends with
    it. *)
Definition Matrix_dtor (this : Z) : M unit :=
  m ← deref this;
  (if non_null (m_data m)
   then delete_half_array (m_data m) ;; assign this (set_data nullptr)
   else mret tt) ;;
  m ← deref this;
  (if non_null (m_gpu_data m)
   then HGEMM_CHECK_CUDART_ERROR (cudaFree (m_gpu_data m)) ;;
        assign this (set_gpu_data nullptr)
   else mret tt) ;;
  end_of_lifetime this.

(** ** Construction with a product that wraps *)

(** The world a successful construction leaves in general: as [constructed],
    with the [size_t] product as element count. *)
Definition built (w : World) (this row col : Z) (name : string)
    (min max : float) (uniform : Z -> float) : World :=
  let n := size_t_mul row col in
  {| host := {| blocks := <[brk (host w) := drawn uniform n]> (blocks (host w));
                brk := brk (host w) + n * sizeof_half;
                limit := limit (host w); raw := raw (host w) |};
     gpu := {| blocks := <[brk (gpu w) := drawn uniform n]> (blocks (gpu w));
               brk := brk (gpu w) + n * sizeof_half;
               limit := limit (gpu w); raw := raw (gpu w) |};
     objects := <[this := {| m_row := row; m_col := col; m_name := name;
                             m_min := min; m_max := max; m_elem_num := n;
                             m_data := brk (host w); m_gpu_data := brk (gpu w);
                             m_max_diff := fzero; m_avg_diff := fzero |}]> (objects w) |}.

(** ** Sequences of calls *)

(** What a driver does with matrices: it constructs and destroys them, calls
    their methods, and launches kernels that write device buffers. *)
Inductive call :=
  | Construct (this row col : Z) (name : string) (min max : float) (uniform : Z -> float)
  | Destroy (this : Z)
  | Zeros (this : Z)
  | Random (this : Z) (min max : float) (uniform : Z -> float)
  | TearUp (this base : Z)
  | MoveToHost (this : Z)
  | CheckValue (this base : Z)
  | Kernel (p : Z) (content : list half).

Definition run_call (c : call) : M unit :=
  match c with
  | Construct this row col name min max uniform =>
      Matrix_ctor this row col name min max uniform
  | Destroy this => Matrix_dtor this
  | Zeros this => zeros this
  | Random this min max uniform => random this min max uniform
  | TearUp this base => tearUp this base
  | MoveToHost this => moveToHost this
  | CheckValue this base => checkValue this base
  | Kernel p content => kernel_write p content
  end.

Fixpoint run_calls (cs : list call) : M unit :=
  match cs with
  | [] => mret tt
  | c :: cs' => run_call c ;; run_calls cs'
  end.

(** An object is never at the null pointer, and a shape is a pair of
    [size_t] values. *)
Definition call_valid (c : call) : Prop :=
  match c with
  | Construct this row col _ _ _ _ =>
      this <> nullptr /\ 0 <= row < 2 ^ SIZE_WIDTH /\ 0 <= col < 2 ^ SIZE_WIDTH
  | _ => True
  end.

(** The object a call is a method call on. *)
Definition method_of (c : call) : option Z :=
  match c with
  | Zeros this | Random this _ _ _ | TearUp this _ | MoveToHost this
  | CheckValue this _ => Some this
  | _ => None
  end.

(** One round of a driver: two matrices are constructed, [A] is seeded from
    [B], a kernel writes the device buffer of [A], the result is pulled and
    compared, and [A] is destroyed. *)
Definition example_calls : list call :=
  [ Construct obj_A 2 2 "A" default_min default_max draws_A;
    Construct obj_B 2 2 "B" default_min default_max draws_B;
    TearUp obj_A obj_B;
    Kernel 0x7000000 (drawn draws_A 4);
    MoveToHost obj_A;
    CheckValue obj_A obj_B;
    Zeros obj_B;
    Random obj_A default_min default_max draws_B;
    Destroy obj_A ].

(** * Properties *)

(** ** IEEE 754 facts *)


(** Digits *)
Lemma digits2_size p : digits2_pos p = Pos.size p.
Proof. induction p; simpl; congruence. Qed.

Lemma digits2_bounds p :
  2 ^ (Zpos (digits2_pos p) - 1) <= Zpos p < 2 ^ Zpos (digits2_pos p).
Proof.
  rewrite digits2_size. split.
  - pose proof (Pos.size_le p) as H.
    assert (H' : 2 ^ Zpos (Pos.size p) <= 2 * Zpos p).
    { change (2 * Zpos p) with (Zpos p~0). rewrite <- Pos2Z.inj_pow. by apply Pos2Z.pos_le_pos. }
    replace (Zpos (Pos.size p)) with (Z.succ (Zpos (Pos.size p) - 1)) in H' by lia.
    rewrite Z.pow_succ_r in H' by lia. lia.
  - pose proof (Pos.size_gt p) as H. rewrite <- Pos2Z.inj_pow. by apply Pos2Z.pos_lt_pos.
Qed.

Lemma Zdigits2_pos m : 0 < m -> 0 < Zdigits2 m.
Proof. destruct m; simpl; lia. Qed.

Lemma Zdigits2_bounds m :
  0 < m -> 2 ^ (Zdigits2 m - 1) <= m < 2 ^ Zdigits2 m.
Proof. destruct m as [|p|p]; try lia. intros _. apply digits2_bounds. Qed.

Lemma Zdigits2_le m k : 0 < m -> 0 <= k -> m < 2 ^ k -> Zdigits2 m <= k.
Proof.
  intros Hm Hk Hlt. pose proof (Zdigits2_bounds m Hm) as [Hlo _].
  pose proof (Zdigits2_pos m Hm).
  destruct (Z_le_gt_dec (Zdigits2 m) k) as [|Hgt]; [done|].
  assert (2 ^ k <= 2 ^ (Zdigits2 m - 1)) by (apply Z.pow_le_mono_r; lia). lia.
Qed.

Lemma Zdigits2_ge m k : 0 < m -> 2 ^ k <= m -> k < Zdigits2 m.
Proof.
  intros Hm Hle. pose proof (Zdigits2_bounds m Hm) as [_ Hhi].
  pose proof (Zdigits2_pos m Hm).
  destruct (Z_lt_le_dec k (Zdigits2 m)) as [|Hge]; [done|].
  assert (2 ^ Zdigits2 m <= 2 ^ k) by (apply Z.pow_le_mono_r; lia). lia.
Qed.

Lemma digits2_shl p d :
  Zpos (digits2_pos (Pos.iter xO p d)) = Zpos (digits2_pos p) + Zpos d.
Proof.
  induction d as [|d IH] using Pos.peano_ind.
  - simpl. lia.
  - rewrite Pos.iter_succ. simpl. lia.
Qed.

(** Right shifts *)
Lemma shr_1_m mrs : 0 <= shr_m mrs -> shr_m (shr_1 mrs) = shr_m mrs / 2.
Proof.
  destruct mrs as [m r s]. simpl. intros Hm.
  destruct m as [|[p|p|]|p]; cbn [shr_m shr_1 orb] in *; try lia; try done.
  - apply Z.div_unique with 1; lia.
  - apply Z.div_unique with 0; lia.
Qed.

Lemma pow2_xO p : 2 ^ Zpos p~0 = 2 ^ Zpos p * 2 ^ Zpos p.
Proof. rewrite <- Z.pow_add_r by lia. f_equal. lia. Qed.

Lemma pow2_xI p : 2 ^ Zpos p~1 = 2 * (2 ^ Zpos p * 2 ^ Zpos p).
Proof.
  replace (Zpos p~1) with (1 + (Zpos p + Zpos p)) by lia.
  rewrite !Z.pow_add_r by lia. done.
Qed.

Lemma iter_shr_m p : forall mrs,
  0 <= shr_m mrs ->
  shr_m (SpecFloat.iter_pos shr_1 p mrs) = shr_m mrs / 2 ^ Zpos p.
Proof.
  assert (Hpos : forall k, 0 < 2 ^ Zpos k) by (intros; apply Z.pow_pos_nonneg; lia).
  assert (Hnn : forall m k, 0 <= m -> 0 <= m / 2 ^ Zpos k).
  { intros. apply Z.div_pos; [done|]. apply Hpos. }
  assert (Hh : forall m, 0 <= m -> 0 <= m / 2) by (intros; apply Z.div_pos; lia).
  induction p as [p IH|p IH|]; intros mrs Hm; simpl.
  - rewrite IH; rewrite IH; rewrite ?shr_1_m; auto.
    pose proof (Hpos p).
    rewrite !Z.div_div by lia. by rewrite pow2_xI.
  - rewrite IH; rewrite IH; auto.
    pose proof (Hpos p).
    rewrite !Z.div_div by lia. by rewrite pow2_xO.
  - by rewrite shr_1_m.
Qed.

Lemma shr_spec mrs e n :
  0 <= shr_m mrs ->
  let r := shr mrs e n in
  shr_m (fst r) = shr_m mrs / 2 ^ Z.max 0 n /\ snd r = e + Z.max 0 n.
Proof.
  intros Hm. destruct n as [|p|p]; simpl.
  - rewrite Z.div_1_r. lia.
  - rewrite iter_shr_m by done. split; [done | lia].
  - rewrite Z.div_1_r. lia.
Qed.

Lemma shr_record_m m l : shr_m (shr_record_of_loc m l) = m.
Proof. by destruct l as [|[]]. Qed.

Lemma round_nearest_even_bounds m l :
  m <= round_nearest_even m l <= m + 1.
Proof. destruct l as [|[]]; simpl; try lia. destruct (Z.even m); lia. Qed.

Section rounding.
Context (prec emax : Z) (Hprec : 0 < prec).

Lemma shr_fexp_spec m e l :
  0 <= m ->
  let n := Z.max 0 (fexp prec emax (Zdigits2 m + e) - e) in
  shr_m (fst (shr_fexp prec emax m e l)) = m / 2 ^ n /\
  snd (shr_fexp prec emax m e l) = e + n.
Proof.
  intros Hm n. unfold shr_fexp.
  pose proof (shr_spec (shr_record_of_loc m l) e
                (fexp prec emax (Zdigits2 m + e) - e)) as H.
  rewrite shr_record_m in H. by apply H.
Qed.

Lemma shift_amount m e :
  emin prec emax <= e ->
  Z.max 0 (fexp prec emax (Zdigits2 m + e) - e) = Z.max 0 (Zdigits2 m - prec).
Proof. unfold fexp. lia. Qed.

Lemma shifted_pos m :
  0 < m -> 0 < m / 2 ^ Z.max 0 (Zdigits2 m - prec).
Proof.
  intros Hm. pose proof (Zdigits2_bounds m Hm) as [Hlo _].
  pose proof (Zdigits2_pos m Hm).
  apply Z.div_str_pos. split; [apply Z.pow_pos_nonneg; lia|].
  etransitivity; [|exact Hlo]. apply Z.pow_le_mono_r; lia.
Qed.

Lemma round_aux_signed sx mx ex lx :
  0 <= mx -> signed sx (binary_round_aux prec emax sx mx ex lx).
Proof.
  intros Hm. unfold binary_round_aux.
  pose proof (shr_fexp_spec mx ex lx Hm) as [H1 _].
  destruct (shr_fexp prec emax mx ex lx) as [mrs' e']. simpl in H1.
  assert (Hm' : 0 <= shr_m mrs').
  { rewrite H1. apply Z.div_pos; [done|]. apply Z.pow_pos_nonneg; lia. }
  pose proof (round_nearest_even_bounds (shr_m mrs') (loc_of_shr_record mrs')) as Hr.
  pose proof (shr_fexp_spec (round_nearest_even (shr_m mrs') (loc_of_shr_record mrs'))
                e' loc_Exact ltac:(lia)) as [H2 _].
  destruct (shr_fexp prec emax _ e' loc_Exact) as [mrs'' e'']. simpl in H2.
  assert (Hm'' : 0 <= shr_m mrs'').
  { rewrite H2. apply Z.div_pos; [lia|]. apply Z.pow_pos_nonneg; lia. }
  destruct (shr_m mrs''); try lia; simpl; try done.
  by destruct (_ <=? _).
Qed.

Lemma round_aux_finite sx mx ex lx :
  0 < mx -> emin prec emax <= ex ->
  ex + 2 * Z.max 0 (Zdigits2 mx - prec) + 1 <= emax - prec ->
  exists m e, binary_round_aux prec emax sx mx ex lx = S754_finite sx m e.
Proof.
  intros Hm He Hb. unfold binary_round_aux.
  pose proof (shr_fexp_spec mx ex lx ltac:(lia)) as [H1 H1e].
  rewrite shift_amount in H1, H1e by done.
  destruct (shr_fexp prec emax mx ex lx) as [mrs' e']. simpl in H1, H1e.
  pose proof (shifted_pos mx Hm) as Hpos1. rewrite <- H1 in Hpos1.
  set (m2 := round_nearest_even (shr_m mrs') (loc_of_shr_record mrs')).
  pose proof (round_nearest_even_bounds (shr_m mrs') (loc_of_shr_record mrs')) as Hr.
  fold m2 in Hr.
  assert (Hle : shr_m mrs' <= mx).
  { rewrite H1. apply Z.div_le_upper_bound; [apply Z.pow_pos_nonneg; lia|].
    assert (0 < 2 ^ Z.max 0 (Zdigits2 mx - prec)) by (apply Z.pow_pos_nonneg; lia).
    nia. }
  assert (Hd2 : Zdigits2 m2 <= Zdigits2 mx + 1).
  { pose proof (Zdigits2_bounds mx Hm) as [_ Hhi]. pose proof (Zdigits2_pos mx Hm).
    apply Zdigits2_le; [lia | lia |].
    rewrite Z.pow_add_r by lia. change (2 ^ 1) with 2. lia. }
  pose proof (shr_fexp_spec m2 e' loc_Exact ltac:(lia)) as [H2 H2e].
  rewrite shift_amount in H2, H2e by lia.
  destruct (shr_fexp prec emax m2 e' loc_Exact) as [mrs'' e'']. simpl in H2, H2e.
  pose proof (shifted_pos m2 ltac:(lia)) as Hpos2. rewrite <- H2 in Hpos2.
  destruct (shr_m mrs'') as [|m''|]; try lia.
  rewrite (proj2 (Z.leb_le _ _)) by lia. eauto.
Qed.

Lemma round_signed sx mx ex : signed sx (binary_round prec emax sx mx ex).
Proof.
  unfold binary_round. destruct (shl_align _ _ _) as [mz ez].
  by apply round_aux_signed.
Qed.

Lemma round_finite sx mx ex :
  emin prec emax <= ex ->
  ex + 2 * Z.max 0 (Zpos (digits2_pos mx) - prec) + 1 <= emax - prec ->
  exists m e, binary_round prec emax sx mx ex = S754_finite sx m e.
Proof.
  intros He Hb. unfold binary_round, shl_align.
  destruct (fexp prec emax (Zpos (digits2_pos mx) + ex) - ex) as [|d|d] eqn:Hd;
    try (apply round_aux_finite; simpl; lia).
  apply round_aux_finite; [lia | unfold fexp in *; lia |].
  cbn [Zdigits2]. rewrite digits2_shl. unfold fexp in *. lia.
Qed.

Lemma normalize_signed m e : 0 < m -> signed false (binary_normalize prec emax m e false).
Proof. destruct m; try lia. intros _. apply round_signed. Qed.
End rounding.

Lemma size_t_to_double_finite n :
  0 < n < 2 ^ SIZE_WIDTH -> exists m e, size_t_to_double n = S754_finite false m e.
Proof.
  intros [Hn Hlt]. unfold size_t_to_double. destruct n as [|p|p]; try lia.
  cbn [binary_normalize]. apply round_finite; [lia | unfold emin; lia |].
  pose proof (Zdigits2_le (Zpos p) 64 ltac:(lia) ltac:(lia) Hlt) as Hd.
  cbn [Zdigits2] in Hd. lia.
Qed.

(** Sign facts *)
Lemma nonneg_zero s : nonneg (S754_zero s) = true.
Proof. done. Qed.

Lemma signed_nonneg x : signed false x -> nonneg x = true.
Proof. destruct x as [s|s| |s m e]; simpl; try done; by intros ->. Qed.

Lemma nonneg_cases x :
  nonneg x = true -> (exists s, x = S754_zero s) \/ signed false x.
Proof.
  destruct x as [s|[]| |[] m e]; simpl; try done; eauto.
Qed.

Lemma nonneg_not_nan x : nonneg x = true -> is_nan x = false.
Proof. by destruct x. Qed.

Lemma convert_nonneg prec emax x :
  nonneg x = true -> nonneg (convert prec emax x) = true.
Proof.
  intros Hx. destruct x as [s|s| |s m e]; simpl; try done.
  destruct s; [done|]. apply signed_nonneg. by apply round_signed.
Qed.

Lemma std_abs_nonneg x : is_nan x = false -> nonneg (std_abs x) = true.
Proof. by destruct x. Qed.

Lemma fsub_not_nan x y :
  is_finite x = true -> is_finite y = true -> is_nan (fsub x y) = false.
Proof.
  destruct x as [sx|sx| |sx mx ex], y as [sy|sy| |sy my ey]; simpl; try done.
  - by destruct sx, sy.
  - intros _ _.
    set (v := _ - _). destruct v as [|p|p]; simpl; try done.
    + pose proof (round_signed 24 128 false p (Z.min ex ey)) as H.
      by destruct (binary_round _ _ _ _ _).
    + pose proof (round_signed 24 128 true p (Z.min ex ey)) as H.
      by destruct (binary_round _ _ _ _ _).
Qed.

Lemma fsub_self x : is_finite x = true -> fsub x x = fzero.
Proof.
  destruct x as [s|s| |s m e]; simpl; try done.
  - by destruct s.
  - intros _. by rewrite Z.sub_diag.
Qed.

Lemma fadd_nonneg x y :
  nonneg x = true -> nonneg y = true -> nonneg (fadd x y) = true.
Proof.
  intros Hx Hy.
  destruct x as [sx|[]| |[] mx ex], y as [sy|[]| |[] my ey];
    try done; try (by destruct sx, sy).
  unfold fadd, SFadd. apply signed_nonneg, normalize_signed.
  unfold cond_Zopp. lia.
Qed.

Lemma fadd_zero_zero : fadd fzero fzero = fzero.
Proof. done. Qed.

Lemma ddiv_nonneg x m e :
  nonneg x = true -> nonneg (ddiv x (S754_finite false m e)) = true.
Proof.
  intros Hx. destruct x as [sx|[]| |[] mx ex]; simpl in *; try done.
  unfold SFdiv_core_binary.
  set (m' := match _ with Zpos _ => _ | Z0 => _ | Zneg _ => _ end).
  assert (Hm' : 0 <= m').
  { subst m'. destruct (_ - _ - _); try lia. apply Z.shiftl_nonneg. lia. }
  pose proof (Z_div_mod m' (Zpos m) ltac:(lia)) as Hdm.
  destruct (Z.div_eucl m' (Zpos m)) as [q r].
  apply signed_nonneg, round_aux_signed. nia.
Qed.

Lemma ddiv_zero m e : ddiv fzero (S754_finite false m e) = fzero.
Proof. done. Qed.

Lemma mean_of_nonneg s n :
  0 < n < 2 ^ SIZE_WIDTH -> nonneg s = true -> nonneg (mean_of s n) = true.
Proof.
  intros Hn Hs. unfold mean_of, double_to_float, float_to_double.
  destruct (size_t_to_double_finite n Hn) as (m & e & ->).
  apply convert_nonneg, ddiv_nonneg. by apply convert_nonneg.
Qed.

Lemma mean_of_zero n : 0 < n < 2 ^ SIZE_WIDTH -> mean_of fzero n = fzero.
Proof.
  intros Hn. unfold mean_of. destruct (size_t_to_double_finite n Hn) as (m & e & ->).
  done.
Qed.

(** Halves *)
Lemma half_frac_range h : 0 <= half_frac h < 1024.
Proof.
  unfold half_frac. change 0x3FF with (Z.ones 10).
  rewrite Z.land_ones by lia. apply Z.mod_pos_bound. lia.
Qed.

Lemma half_exp_range h : 0 <= half_exp h < 32.
Proof.
  unfold half_exp. change 0x1F with (Z.ones 5).
  rewrite Z.land_ones by lia. apply Z.mod_pos_bound. lia.
Qed.

Lemma half_value_finite h s m e :
  half_value h = S754_finite s m e -> Zpos m < 2048 /\ -24 <= e <= 5.
Proof.
  unfold half_value.
  pose proof (half_frac_range h) as Hf. pose proof (half_exp_range h) as He.
  destruct (half_exp h =? 0) eqn:E0.
  - destruct (half_frac h) as [|p|p] eqn:Ef; try done.
    intros [= <- <- <-]. lia.
  - destruct (half_exp h =? 0x1F) eqn:E1.
    + by destruct (half_frac h =? 0).
    + apply Z.eqb_neq in E0, E1.
      pose proof (Z.add_lor_land (half_frac h) 0x400) as Hl.
      assert (0 <= Z.land (half_frac h) 0x400) by (apply Z.land_nonneg; lia).
      destruct (Z.lor (half_frac h) 0x400) as [|p|p] eqn:Ef; try done.
      intros [= <- <- <-]. lia.
Qed.

Lemma half2float_finite h :
  half_finite h = true -> is_finite (__half2float h) = true.
Proof.
  unfold half_finite, __half2float.
  destruct (half_value h) as [s|s| |s m e] eqn:Hv; try done.
  intros _. apply half_value_finite in Hv as [Hm He]. simpl.
  assert (Hd : Zpos (digits2_pos m) <= 11).
  { apply (Zdigits2_le (Zpos m) 11); lia. }
  destruct (round_finite 24 128 ltac:(lia) s m e) as (m' & e' & ->);
    [unfold emin; lia | lia | done].
Qed.

Lemma elem_diff_nonneg x y :
  half_finite x = true -> half_finite y = true -> nonneg (elem_diff x y) = true.
Proof.
  intros Hx Hy. unfold elem_diff, double_to_float, float_to_double.
  do 2 apply convert_nonneg. apply std_abs_nonneg, fsub_not_nan;
    by apply half2float_finite.
Qed.

Lemma elem_diff_self x : half_finite x = true -> elem_diff x x = fzero.
Proof.
  intros Hx. unfold elem_diff. by rewrite fsub_self by (by apply half2float_finite).
Qed.

Lemma SFcompare_rank x y :
  is_nan x = false -> is_nan y = false ->
  SFcompare x y = Some (lex (rank x) (rank y)).
Proof.
  destruct x as [sx|[]| |[] mx ex], y as [sy|[]| |[] my ey]; try done; intros _ _; simpl.
  rewrite Z.compare_opp, (Z.compare_antisym ex ey). by destruct (ex ?= ey).
Qed.

Lemma lex_le_trans a b c : lex a b <> Gt -> lex b c <> Gt -> lex a c <> Gt.
Proof.
  destruct a as [[a1 a2] a3], b as [[b1 b2] b3], c as [[c1 c2] c3]. unfold lex.
  destruct (Z.compare_spec a1 b1), (Z.compare_spec b1 c1), (Z.compare_spec a1 c1);
    try lia; try done;
  destruct (Z.compare_spec a2 b2), (Z.compare_spec b2 c2), (Z.compare_spec a2 c2);
    try lia; try done;
  destruct (Z.compare_spec a3 b3), (Z.compare_spec b3 c3), (Z.compare_spec a3 c3);
    try lia; try done.
Qed.

Lemma lex_antisym a b : lex b a = CompOpp (lex a b).
Proof.
  destruct a as [[a1 a2] a3], b as [[b1 b2] b3]. unfold lex.
  rewrite (Z.compare_antisym a1 b1), (Z.compare_antisym a2 b2), (Z.compare_antisym a3 b3).
  by destruct (a1 ?= b1), (a2 ?= b2), (a3 ?= b3).
Qed.

Lemma lex_refl a : lex a a = Eq.
Proof. destruct a as [[a1 a2] a3]. unfold lex. by rewrite !Z.compare_refl. Qed.

Lemma SFleb_rank x y :
  is_nan x = false -> is_nan y = false ->
  SFleb x y = true <-> lex (rank x) (rank y) <> Gt.
Proof.
  intros Hx Hy. unfold SFleb. rewrite SFcompare_rank by done.
  by destruct (lex _ _).
Qed.

Lemma SFleb_refl x : is_nan x = false -> SFleb x x = true.
Proof. intros Hx. apply SFleb_rank; [done..|]. by rewrite lex_refl. Qed.

Lemma SFleb_trans x y z :
  is_nan y = false -> SFleb x y = true -> SFleb y z = true -> SFleb x z = true.
Proof.
  intros Hy Hxy Hyz.
  assert (Hx : is_nan x = false) by (by destruct x).
  assert (Hz : is_nan z = false) by (by destruct z, y as [|[]| |[]]).
  apply SFleb_rank in Hxy, Hyz; try done. apply SFleb_rank; try done.
  by eapply lex_le_trans.
Qed.

Lemma SFltb_leb x y : SFltb x y = true -> SFleb x y = true.
Proof. unfold SFltb, SFleb. by destruct (SFcompare x y) as [[]|]. Qed.

Lemma not_SFltb_leb x y :
  is_nan x = false -> is_nan y = false -> SFltb x y = false -> SFleb y x = true.
Proof.
  intros Hx Hy. unfold SFltb, SFleb. rewrite !SFcompare_rank by done.
  rewrite (lex_antisym (rank x) (rank y)). by destruct (lex _ _).
Qed.

Lemma convert_signed prec emax x : signed false x -> signed false (convert prec emax x).
Proof. destruct x as [s|s| |s m e]; simpl; try done. intros ->. apply round_signed. Qed.

Lemma elem_diff_signed x y :
  half_finite x = true -> half_finite y = true -> signed false (elem_diff x y).
Proof.
  intros Hx Hy. unfold elem_diff, double_to_float, float_to_double.
  do 2 apply convert_signed.
  pose proof (fsub_not_nan _ _ (half2float_finite x Hx) (half2float_finite y Hy)) as Hn.
  by destruct (fsub _ _).
Qed.

Lemma signed_le_zero d : signed false d -> SFleb d fzero = true -> d = fzero.
Proof. destruct d as [s|s| |s m e]; simpl; try done; by intros ->. Qed.

(** Lists of differences *)
Lemma abs_diffs_signed (xs ys : list half) :
  Forall (fun h => half_finite h = true) xs ->
  Forall (fun h => half_finite h = true) ys ->
  Forall (signed false) (abs_diffs xs ys).
Proof.
  intros Hxs. revert ys. induction Hxs as [|x xs Hx Hxs IH]; intros ys Hys; [constructor|].
  destruct Hys as [|y ys Hy Hys]; [constructor|].
  constructor; [by apply elem_diff_signed | by apply IH].
Qed.

Lemma abs_diffs_self (xs : list half) :
  Forall (fun h => half_finite h = true) xs ->
  abs_diffs xs xs = replicate (length xs) fzero.
Proof.
  induction 1 as [|x xs Hx Hxs IH]; [done|].
  unfold abs_diffs in *. simpl. by rewrite elem_diff_self, IH.
Qed.

Lemma length_abs_diffs (xs ys : list half) :
  length xs = length ys -> length (abs_diffs xs ys) = length xs.
Proof. intros H. unfold abs_diffs. rewrite length_zip_with. lia. Qed.

Lemma fold_sum_nonneg ds : forall acc,
  Forall (signed false) ds -> nonneg acc = true ->
  nonneg (fold_left fadd ds acc) = true.
Proof.
  induction ds as [|d ds IH]; intros acc Hds Hacc; [done|].
  inversion Hds; subst. simpl. apply IH; [done|].
  apply fadd_nonneg; [done | by apply signed_nonneg].
Qed.

Lemma fold_sum_zeros n : fold_left fadd (replicate n fzero) fzero = fzero.
Proof. induction n; [done|]. cbn [replicate fold_left]. by rewrite fadd_zero_zero. Qed.

Lemma fold_max_zeros n : fold_left std_max (replicate n fzero) fzero = fzero.
Proof.
  induction n; [done|]. cbn [replicate fold_left].
  by change (std_max fzero fzero) with fzero.
Qed.

Lemma std_max_cases a b : std_max a b = a \/ std_max a b = b.
Proof. unfold std_max. destruct (SFltb a b); auto. Qed.

Lemma std_max_upper a b :
  is_nan a = false -> is_nan b = false ->
  SFleb a (std_max a b) = true /\ SFleb b (std_max a b) = true.
Proof.
  intros Ha Hb. unfold std_max. destruct (SFltb a b) eqn:E.
  - split; [by apply SFltb_leb | by apply SFleb_refl].
  - split; [by apply SFleb_refl | by apply not_SFltb_leb].
Qed.

Lemma signed_not_nan s x : signed s x -> is_nan x = false.
Proof. by destruct x. Qed.

Lemma fold_max_spec ds : forall acc,
  Forall (signed false) ds -> signed false acc ->
  let r := fold_left std_max ds acc in
  signed false r /\ SFleb acc r = true /\
  Forall (fun d => SFleb d r = true) ds /\ (r = acc \/ In r ds).
Proof.
  induction ds as [|d ds IH]; intros acc Hds Hacc r.
  - subst r. simpl. repeat split; auto.
    apply SFleb_refl. by eapply signed_not_nan.
  - inversion Hds as [|? ? Hd Hds']; subst. simpl in r.
    assert (Hs : signed false (std_max acc d)).
    { destruct (std_max_cases acc d) as [-> | ->]; done. }
    destruct (IH (std_max acc d) Hds' Hs) as (Hr & Hle & Hall & Hin). fold r in Hr, Hle, Hall, Hin.
    destruct (std_max_upper acc d) as [Ha Hb]; try by eapply signed_not_nan.
    assert (Hn : is_nan (std_max acc d) = false) by (by eapply signed_not_nan).
    repeat split.
    + done.
    + by eapply SFleb_trans.
    + constructor; [by eapply SFleb_trans | done].
    + destruct Hin as [Hin | Hin]; [|right; by right].
      destruct (std_max_cases acc d) as [E | E]; rewrite E in Hin; [by left|].
      right. left. done.
Qed.

Lemma running_max_spec ds :
  Forall (signed false) ds -> ds <> [] ->
  nonneg (running_max ds) = true /\
  Forall (fun d => SFleb d (running_max ds) = true) ds /\
  In (running_max ds) ds.
Proof.
  intros Hds Hne. unfold running_max.
  destruct (fold_max_spec ds fzero Hds eq_refl) as (Hr & Hle & Hall & Hin).
  repeat split; [by apply signed_nonneg | done |].
  destruct Hin as [Hin | Hin]; [|done].
  destruct ds as [|d ds]; [done|]. left.
  inversion Hall as [|? ? Hd _]; inversion Hds as [|? ? Hsd _]; subst.
  rewrite Hin in Hd |- *. by apply signed_le_zero.
Qed.

(** ** Memory, loops and the outcome of each method *)


Lemma with_blocks_id m : with_blocks (blocks m) m = m.
Proof. by destruct m. Qed.
Lemma with_host_id w : with_host (host w) w = w.
Proof. by destruct w. Qed.
Lemma with_gpu_id w : with_gpu (gpu w) w = w.
Proof. by destruct w. Qed.
Lemma with_objects_id w : with_objects (objects w) w = w.
Proof. by destruct w. Qed.

Lemma bind_Ok {A B} (c : M A) (f : A -> M B) w a w' :
  c w = Ok a w' -> (c ≫= f) w = f a w'.
Proof. intros H. unfold mbind, M_bind. by rewrite H. Qed.

Lemma bind_Fatal {A B} (c : M A) (f : A -> M B) w e w' :
  c w = Fatal e w' -> (c ≫= f) w = Fatal e w'.
Proof. intros H. unfold mbind, M_bind. by rewrite H. Qed.

Lemma fill_step (f : Z -> half) i k b :
  0 <= i -> i + Z.of_nat (S k) <= Z.of_nat (length b) ->
  fill f (i + 1) k (<[Z.to_nat i := f i]> b) = fill f i (S k) b.
Proof.
  intros Hi Hlen. unfold fill.
  rewrite (seqZ_cons i) by lia. rewrite fmap_cons.
  replace (Z.pred (Z.of_nat (S k))) with (Z.of_nat k) by lia.
  replace (Z.succ i) with (i + 1) by lia.
  replace (Z.to_nat (i + 1)) with (S (Z.to_nat i)) by lia.
  rewrite drop_insert_lt by lia.
  replace (S (Z.to_nat i) + k)%nat with (Z.to_nat i + S k)%nat by lia.
  erewrite take_S_r by (rewrite list_lookup_insert_eq; [done|lia]).
  rewrite take_insert_ge by lia. by rewrite <- app_assoc.
Qed.

Lemma fill_loop (f : Z -> half) p k : forall i w b,
  blocks (host w) !! p = Some b -> 0 <= i -> i + Z.of_nat k <= Z.of_nat (length b) ->
  for_from k i (fun j => store_host p j (f j)) w =
  Ok tt (with_host (with_blocks (<[p := fill f i k b]> (blocks (host w))) (host w)) w).
Proof.
  induction k as [|k IH]; intros i w b Hb Hi Hlen; simpl.
  - unfold fill. simpl. rewrite Nat.add_0_r, take_drop.
    rewrite insert_id by done. by rewrite with_blocks_id, with_host_id.
  - unfold mbind, M_bind, store_host at 1. rewrite Hb.
    rewrite decide_True by lia.
    erewrite IH; [| simpl; apply lookup_insert_eq | lia | rewrite length_insert; lia].
    rewrite fill_step by done.
    unfold with_host, with_blocks. simpl. by rewrite insert_insert_eq.
Qed.

Lemma fill_all (f : Z -> half) b :
  fill f 0 (length b) b = f <$> seqZ 0 (Z.of_nat (length b)).
Proof.
  unfold fill. simpl. rewrite drop_all. by rewrite app_nil_r.
Qed.

Lemma deref_Ok w this m : objects w !! this = Some m -> deref this w = Ok m w.
Proof. intros H. unfold deref. by rewrite H. Qed.

Lemma assign_Ok w this f m :
  objects w !! this = Some m ->
  assign this f w = Ok tt (with_objects (<[this := f m]> (objects w)) w).
Proof. intros H. unfold assign. by rewrite H. Qed.

Lemma mem_alloc_Some m bytes :
  brk m + Z.max 1 bytes <= limit m ->
  mem_alloc m bytes =
  Some (brk m, {| blocks := <[brk m := fresh_block m (bytes / sizeof_half)]> (blocks m);
                  brk := brk m + Z.max 1 bytes; limit := limit m; raw := raw m |}).
Proof. intros H. unfold mem_alloc. by rewrite decide_True. Qed.

Lemma length_fresh_block m n : 0 <= n -> Z.of_nat (length (fresh_block m n)) = n.
Proof. intros H. unfold fresh_block. rewrite length_fmap, length_seqZ. lia. Qed.

Lemma overwrite_all n (s d : list half) :
  n = length s -> n = length d -> overwrite n s d = s.
Proof.
  intros -> H. unfold overwrite. rewrite take_ge by lia.
  rewrite drop_ge by lia. apply app_nil_r.
Qed.

Arguments __float2half : simpl never.
Arguments size_t_mul : simpl never.
Arguments Z.pow : simpl never.
Arguments Z.mul : simpl never.

Ltac norm :=
  cbn [objects host gpu with_objects with_host with_gpu with_blocks blocks brk
       limit raw m_row m_col m_name m_min m_max m_elem_num m_data m_gpu_data
       m_max_diff m_avg_diff set_elem_num set_data set_gpu_data set_max_diff
       set_avg_diff];
  rewrite ?insert_insert_eq, ?lookup_insert_eq.

Ltac step_with tac := erewrite bind_Ok by (tac; norm; try done); norm.
Ltac step := step_with ltac:(first [reflexivity | apply deref_Ok | apply assign_Ok]).

Lemma non_null_true p : p <> nullptr -> non_null p = true.
Proof. intros H. unfold non_null. apply negb_true_iff, Z.eqb_neq, H. Qed.

Lemma check_true b : b = true -> HGEMM_CHECK b = mret tt.
Proof. by intros ->. Qed.

Lemma cuda_check_Ok (call : M cudaError_t) w w' :
  call w = Ok cudaSuccess w' -> HGEMM_CHECK_CUDART_ERROR call w = Ok tt w'.
Proof. intros H. unfold HGEMM_CHECK_CUDART_ERROR. by erewrite bind_Ok by exact H. Qed.

Lemma new_half_array_Ok w n :
  n * sizeof_half < 2 ^ SIZE_WIDTH ->
  brk (host w) + Z.max 1 (n * sizeof_half) <= limit (host w) ->
  new_half_array n w =
  Ok (brk (host w))
     (with_host {| blocks := <[brk (host w) := fresh_block (host w) (n * sizeof_half / sizeof_half)]> (blocks (host w));
                   brk := brk (host w) + Z.max 1 (n * sizeof_half);
                   limit := limit (host w); raw := raw (host w) |} w).
Proof.
  intros H1 H2. unfold new_half_array. rewrite decide_True by done.
  by rewrite mem_alloc_Some.
Qed.

Lemma cudaMalloc_Ok w devPtr size w' :
  size <> 0 ->
  brk (gpu w) + Z.max 1 size <= limit (gpu w) ->
  devPtr (brk (gpu w))
    (with_gpu {| blocks := <[brk (gpu w) := fresh_block (gpu w) (size / sizeof_half)]> (blocks (gpu w));
                 brk := brk (gpu w) + Z.max 1 size;
                 limit := limit (gpu w); raw := raw (gpu w) |} w) = Ok tt w' ->
  cudaMalloc devPtr size w = Ok cudaSuccess w'.
Proof.
  intros H1 H2 H3. unfold cudaMalloc. rewrite decide_False by done.
  rewrite mem_alloc_Some by done. by erewrite bind_Ok by exact H3.
Qed.

Lemma cudaMemcpy_H2D_Ok w dst src count s d :
  blocks (host w) !! src = Some s ->
  blocks (gpu w) !! dst = Some d ->
  count / sizeof_half = Z.of_nat (length s) ->
  length s = length d ->
  cudaMemcpy dst src count cudaMemcpyHostToDevice w =
  Ok cudaSuccess (with_gpu (with_blocks (<[dst := s]> (blocks (gpu w))) (gpu w)) w).
Proof.
  intros Hs Hd Hc Hl. unfold cudaMemcpy. rewrite Hs, Hd, Hc.
  rewrite decide_True by lia. rewrite overwrite_all by lia. done.
Qed.

Lemma cudaMemcpy_D2H_Ok w dst src count s d :
  blocks (gpu w) !! src = Some s ->
  blocks (host w) !! dst = Some d ->
  count / sizeof_half = Z.of_nat (length s) ->
  length s = length d ->
  cudaMemcpy dst src count cudaMemcpyDeviceToHost w =
  Ok cudaSuccess (with_host (with_blocks (<[dst := s]> (blocks (host w))) (host w)) w).
Proof.
  intros Hs Hd Hc Hl. unfold cudaMemcpy. rewrite Hs, Hd, Hc.
  rewrite decide_True by lia. rewrite overwrite_all by lia. done.
Qed.

Lemma cudaMemset_Ok w p value count d :
  blocks (gpu w) !! p = Some d ->
  count / sizeof_half = Z.of_nat (length d) ->
  cudaMemset p value count w =
  Ok cudaSuccess
     (with_gpu (with_blocks (<[p := replicate (length d) (Half (value mod 256 + 256 * (value mod 256)))]>
                               (blocks (gpu w))) (gpu w)) w).
Proof.
  intros Hd Hc. unfold cudaMemset. rewrite Hd, Hc.
  rewrite decide_True by lia. rewrite Nat2Z.id.
  rewrite overwrite_all by (by rewrite ?length_replicate). done.
Qed.

Lemma length_drawn uniform n : 0 <= n -> Z.of_nat (length (drawn uniform n)) = n.
Proof. intros H. unfold drawn. rewrite length_fmap, length_seqZ. lia. Qed.

Lemma ctor_Ok w this row col name min max uniform :
  0 < brk (host w) -> 0 < brk (gpu w) ->
  0 < row -> 0 < col ->
  row * col * sizeof_half < 2 ^ SIZE_WIDTH ->
  brk (host w) + row * col * sizeof_half <= limit (host w) ->
  brk (gpu w) + row * col * sizeof_half <= limit (gpu w) ->
  Matrix_ctor this row col name min max uniform w =
  Ok tt (constructed w this row col name min max uniform).
Proof.
  intros Hhb Hgb Hrow Hcol Hfit Hhost Hgpu.
  assert (Hn : size_t_mul row col = row * col).
  { unfold size_t_mul. apply Z.mod_small. unfold sizeof_half, SIZE_WIDTH in *. lia. }
  assert (Hb : size_t_mul (row * col) sizeof_half = row * col * sizeof_half).
  { unfold size_t_mul. apply Z.mod_small. unfold sizeof_half, SIZE_WIDTH in *. lia. }
  assert (Hmax : Z.max 1 (row * col * sizeof_half) = row * col * sizeof_half).
  { unfold sizeof_half. lia. }
  assert (Hdiv : row * col * sizeof_half / sizeof_half = row * col).
  { unfold sizeof_half. apply Z.div_mul. lia. }
  unfold Matrix_ctor, HGEMM_CHECK_GT.
  step. step.
  rewrite (check_true (row >? 0)) by (apply Z.gtb_lt; lia). step.
  rewrite (check_true (col >? 0)) by (apply Z.gtb_lt; lia). step.
  step. step. rewrite Hn.
  rewrite (check_true (row * col >? 0)) by (apply Z.gtb_lt; lia). step.
  step_with ltac:(apply new_half_array_Ok; norm; [done | lia]).
  step. step.
  rewrite check_true by (apply non_null_true; unfold nullptr; lia). step.
  rewrite Hb.
  step_with ltac:(apply cuda_check_Ok, cudaMalloc_Ok;
                  [unfold sizeof_half in *; lia | norm; lia | apply assign_Ok]).
  step.
  rewrite check_true by (apply non_null_true; unfold nullptr; lia). step.
  rewrite Hmax, Hdiv.
  unfold for_size_t.
  step_with ltac:(erewrite fill_loop; [| norm; done | lia | rewrite length_fresh_block by lia; lia]).
  rewrite Hb.
  replace (Z.to_nat (row * col)) with (length (fresh_block (host w) (row * col)))
    by (pose proof (length_fresh_block (host w) (row * col)); lia).
  rewrite fill_all, length_fresh_block by lia. fold (drawn uniform (row * col)).
  pose proof (length_drawn uniform (row * col)).
  pose proof (length_fresh_block (gpu w) (row * col)).
  step_with ltac:(eapply cuda_check_Ok, cudaMemcpy_H2D_Ok; norm;
                  [ done | done | lia | lia ]).
  unfold HLOG, constructed, with_host, with_gpu, with_objects, with_blocks. simpl.
  rewrite ?insert_insert_eq. done.
Qed.

(** The loop of [checkValue], from index [i] for [k] rounds: the statistics
    of [this] are folded over the differences of the elements passed. *)
Lemma check_loop (this base pd pb : Z) (h hb : list half) k : forall i w m mb,
  objects w !! this = Some m ->
  objects w !! base = Some mb -> m_data mb = pb ->
  blocks (host w) !! pd = Some h ->
  blocks (host w) !! pb = Some hb ->
  0 <= i -> i + Z.of_nat k <= Z.of_nat (length h) ->
  i + Z.of_nat k <= Z.of_nat (length hb) ->
  let ds := abs_diffs (take k (drop (Z.to_nat i) h)) (take k (drop (Z.to_nat i) hb)) in
  for_from k i (fun i =>
    x ← load_host pd i;
    bdata ← getData base;
    y ← load_host bdata i;
    let diff := elem_diff x y in
    assign this (fun m => set_max_diff (std_max (m_max_diff m) diff) m) ;;
    assign this (fun m => set_avg_diff (fadd (m_avg_diff m) diff) m)) w =
  Ok tt (with_objects
           (<[this := set_avg_diff (fold_left fadd ds (m_avg_diff m))
                        (set_max_diff (fold_left std_max ds (m_max_diff m)) m)]>
              (objects w)) w).
Proof.
  induction k as [|k IH]; intros i w m mb Hm Hmb Hpb Hh Hhb Hi Hl1 Hl2 ds.
  - simpl. subst ds. simpl. destruct m; simpl.
    rewrite insert_id by done. by rewrite with_objects_id.
  - assert (Hx : exists x, h !! Z.to_nat i = Some x)
      by (apply lookup_lt_is_Some_2; lia).
    assert (Hy : exists y, hb !! Z.to_nat i = Some y)
      by (apply lookup_lt_is_Some_2; lia).
    destruct Hx as [x Hx], Hy as [y Hy].
    subst ds. rewrite (drop_S h x _ Hx), (drop_S hb y _ Hy).
    cbn [take abs_diffs zip_with fold_left for_from].
    assert (Hbody :
      (x ← load_host pd i;
       bdata ← getData base;
       y ← load_host bdata i;
       let diff := elem_diff x y in
       assign this (fun m => set_max_diff (std_max (m_max_diff m) diff) m) ;;
       assign this (fun m => set_avg_diff (fadd (m_avg_diff m) diff) m)) w =
      Ok tt (with_objects
               (<[this := set_avg_diff (fadd (m_avg_diff m) (elem_diff x y))
                       (set_max_diff (std_max (m_max_diff m) (elem_diff x y)) m)]>
                  (objects w)) w)).
    { 
      step_with ltac:(unfold load_host; rewrite Hh, Hx, decide_True by lia).
      step_with ltac:(unfold getData; erewrite bind_Ok by (apply deref_Ok, Hmb)).
      rewrite Hpb.
      step_with ltac:(unfold load_host; rewrite Hhb, Hy, decide_True by lia).
      step_with ltac:(apply assign_Ok, Hm).
      erewrite assign_Ok by (norm; done). norm. done. }
    erewrite bind_Ok by exact Hbody.
    destruct (decide (base = this)) as [->|Hne].
    + erewrite IH; norm; try done; try lia.
      * replace (Z.to_nat (i + 1)) with (S (Z.to_nat i)) by lia. done.
      * rewrite Hm in Hmb. injection Hmb as <-. done.
    + erewrite IH; norm; try done; try lia.
      * replace (Z.to_nat (i + 1)) with (S (Z.to_nat i)) by lia. done.
      * by rewrite lookup_insert_ne.
Qed.

Lemma elem_bytes w m :
  matrix_ok w m -> size_t_mul (m_elem_num m) sizeof_half / sizeof_half = m_elem_num m.
Proof.
  intros [? ? ? Hpos Hb ? ?]. unfold size_t_mul.
  rewrite Z.mod_small by (unfold sizeof_half in *; lia).
  apply Z.div_mul. done.
Qed.

Lemma same_shape_elem w m mb :
  matrix_ok w m -> matrix_ok w mb ->
  m_row m = m_row mb -> m_col m = m_col mb -> m_elem_num m = m_elem_num mb.
Proof. intros Hm Hmb Hr Hc. rewrite (ok_elem _ _ Hm), (ok_elem _ _ Hmb). congruence. Qed.

Lemma moveToHost_Ok w this m h d :
  matrix_ok w m -> objects w !! this = Some m ->
  blocks (host w) !! m_data m = Some h ->
  blocks (gpu w) !! m_gpu_data m = Some d ->
  moveToHost this w =
  Ok tt (with_host (with_blocks (<[m_data m := d]> (blocks (host w))) (host w)) w).
Proof.
  intros Hok Hm Hh Hd. unfold moveToHost.
  destruct (ok_data _ _ Hok) as (h' & Hh' & Hlh).
  destruct (ok_gpu_data _ _ Hok) as (d' & Hd' & Hld).
  simplify_eq.
  step_with ltac:(apply deref_Ok, Hm).
  erewrite cuda_check_Ok; [done|].
  eapply cudaMemcpy_D2H_Ok; [done | done | | lia].
  rewrite (elem_bytes w) by done. lia.
Qed.

Lemma zeros_Ok w this m h d :
  matrix_ok w m -> objects w !! this = Some m ->
  blocks (host w) !! m_data m = Some h ->
  blocks (gpu w) !! m_gpu_data m = Some d ->
  let z := replicate (Z.to_nat (m_elem_num m)) (Half 0) in
  zeros this w =
  Ok tt (with_host (with_blocks (<[m_data m := z]> (blocks (host w))) (host w))
           (with_gpu (with_blocks (<[m_gpu_data m := z]> (blocks (gpu w))) (gpu w)) w)).
Proof.
  intros Hok Hm Hh Hd z. unfold zeros.
  pose proof (ok_data _ _ Hok) as (h' & Hh' & Hlh).
  pose proof (ok_gpu_data _ _ Hok) as (d' & Hd' & Hld).
  simplify_eq.
  step_with ltac:(apply deref_Ok, Hm).
  step_with ltac:(eapply cuda_check_Ok, cudaMemset_Ok;
                  [done | rewrite (elem_bytes w) by done; lia]).
  replace (length d) with (Z.to_nat (m_elem_num m)) by lia.
  change (0 mod 256 + 256 * (0 mod 256)) with 0. fold z.
  erewrite moveToHost_Ok; norm; try done.
  destruct Hok; split; norm; try done.
  exists z. split; [done|].
  subst z. rewrite length_replicate. lia.
Qed.

Lemma random_Ok w this m h d min max uniform :
  matrix_ok w m -> objects w !! this = Some m ->
  blocks (host w) !! m_data m = Some h ->
  blocks (gpu w) !! m_gpu_data m = Some d ->
  random this min max uniform w =
  Ok tt (with_host (with_blocks (<[m_data m := d]> (blocks (host w))) (host w)) w).
Proof.
  intros Hok Hm Hh Hd. unfold random, for_size_t.
  pose proof (ok_data _ _ Hok) as (h' & Hh' & Hlh).
  pose proof (ok_gpu_data _ _ Hok) as (d' & Hd' & Hld).
  pose proof (ok_elem_pos _ _ Hok).
  simplify_eq.
  step_with ltac:(apply deref_Ok, Hm).
  step_with ltac:(erewrite fill_loop; [| done | lia | lia]).
  erewrite moveToHost_Ok; norm; try done.
  destruct Hok; split; norm; try done.
  eexists. split; [done|].
  unfold fill. rewrite !length_app, length_take, length_fmap, length_seqZ, length_drop. lia.
Qed.

Lemma tearUp_Ok w this base m mb hb :
  matrix_ok w m -> matrix_ok w mb ->
  objects w !! this = Some m -> objects w !! base = Some mb ->
  base <> nullptr ->
  m_row m = m_row mb -> m_col m = m_col mb ->
  blocks (host w) !! m_data mb = Some hb ->
  tearUp this base w =
  Ok tt (with_gpu (with_blocks (<[m_gpu_data m := hb]> (blocks (gpu w))) (gpu w)) w).
Proof.
  intros Hok Hokb Hm Hmb Hnn Hr Hc Hhb. unfold tearUp, HGEMM_CHECK_EQ.
  pose proof (ok_data _ _ Hokb) as (h' & Hh' & Hlh).
  pose proof (ok_gpu_data _ _ Hok) as (d' & Hd' & Hld).
  pose proof (same_shape_elem w m mb Hok Hokb Hr Hc) as He.
  simplify_eq.
  rewrite check_true by (by apply non_null_true). step.
  step_with ltac:(apply deref_Ok, Hm).
  step_with ltac:(unfold getRow; erewrite bind_Ok by (apply deref_Ok, Hmb)).
  rewrite check_true by (by apply Z.eqb_eq). step.
  step_with ltac:(unfold getCol; erewrite bind_Ok by (apply deref_Ok, Hmb)).
  rewrite check_true by (by apply Z.eqb_eq). step.
  step_with ltac:(unfold getData; erewrite bind_Ok by (apply deref_Ok, Hmb)).
  erewrite cuda_check_Ok; [done|].
  eapply cudaMemcpy_H2D_Ok; [done | done | | lia].
  rewrite (elem_bytes w) by done. lia.
Qed.

Lemma checkValue_Ok w this base m mb h hb :
  matrix_ok w m -> matrix_ok w mb ->
  objects w !! this = Some m -> objects w !! base = Some mb ->
  base <> nullptr ->
  m_row m = m_row mb -> m_col m = m_col mb ->
  blocks (host w) !! m_data m = Some h ->
  blocks (host w) !! m_data mb = Some hb ->
  checkValue this base w =
  Ok tt (with_objects
           (<[this := set_avg_diff (mean_of (running_sum (abs_diffs h hb)) (m_elem_num m))
                        (set_max_diff (running_max (abs_diffs h hb)) m)]>
              (objects w)) w).
Proof.
  intros Hok Hokb Hm Hmb Hnn Hr Hc Hh Hhb. unfold checkValue, HGEMM_CHECK_EQ.
  pose proof (ok_data _ _ Hokb) as (hb' & Hhb' & Hlhb).
  pose proof (ok_data _ _ Hok) as (h' & Hh' & Hlh).
  pose proof (same_shape_elem w m mb Hok Hokb Hr Hc) as He.
  simplify_eq.
  rewrite check_true by (by apply non_null_true). step.
  step_with ltac:(apply deref_Ok, Hm).
  step_with ltac:(unfold getRow; erewrite bind_Ok by (apply deref_Ok, Hmb)).
  rewrite check_true by (by apply Z.eqb_eq). step.
  step_with ltac:(unfold getCol; erewrite bind_Ok by (apply deref_Ok, Hmb)).
  rewrite check_true by (by apply Z.eqb_eq). step.
  step_with ltac:(apply assign_Ok, Hm).
  step_with ltac:(apply assign_Ok).
  unfold for_size_t.
  assert (Hbase : exists mb', <[this := set_avg_diff fzero (set_max_diff fzero m)]> (objects w) !! base = Some mb'
                              /\ m_data mb' = m_data mb).
  { destruct (decide (base = this)) as [->|Hne].
    - rewrite lookup_insert_eq. eexists; split; [done|]. by simplify_eq.
    - rewrite lookup_insert_ne by done. eauto. }
  destruct Hbase as (mb' & Hmb' & Hdata).
  step_with ltac:(eapply (check_loop this base (m_data m) (m_data mb) h hb);
                  norm; [done | exact Hmb' | exact Hdata | done | done | lia | lia | lia ]).
  step_with ltac:(apply assign_Ok).
  change (Z.to_nat 0) with 0%nat. rewrite !drop_0.
  rewrite !take_ge by lia.
  unfold HLOG, mret, M_ret, with_objects. simpl. rewrite ?insert_insert_eq.
  by destruct m.
Qed.

(** ** The invariant is established and kept *)

Lemma mem_ok_update m p b b' :
  mem_ok m -> blocks m !! p = Some b ->
  mem_ok (with_blocks (<[p := b']> (blocks m)) m).
Proof.
  intros [Hbrk Hall] Hp. split; [done|]. intros q c. norm.
  destruct (decide (p = q)) as [<-|Hne].
  - rewrite lookup_insert_eq. intros _. by eapply Hall.
  - rewrite lookup_insert_ne by done. apply Hall.
Qed.

Lemma matrix_ok_frame w w' m :
  matrix_ok w m ->
  (forall h, blocks (host w) !! m_data m = Some h ->
     exists h', blocks (host w') !! m_data m = Some h' /\ length h' = length h) ->
  (forall d, blocks (gpu w) !! m_gpu_data m = Some d ->
     exists d', blocks (gpu w') !! m_gpu_data m = Some d' /\ length d' = length d) ->
  matrix_ok w' m.
Proof.
  intros [? ? ? ? ? (h & Hh & Hlh) (d & Hd & Hld)] Hhost Hgpu.
  destruct (Hhost h Hh) as (h' & Hh' & Hl'). destruct (Hgpu d Hd) as (d' & Hd' & Hl'').
  split; try done.
  - exists h'. split; [done | lia].
  - exists d'. split; [done | lia].
Qed.

Lemma lookup_update {A} (m : gmap Z (list A)) p q b b' c :
  m !! p = Some b -> length b' = length b -> m !! q = Some c ->
  exists c', <[p := b']> m !! q = Some c' /\ length c' = length c.
Proof.
  intros Hp Hl Hq. destruct (decide (p = q)) as [<-|Hne].
  - rewrite lookup_insert_eq. exists b'. split; [done|]. congruence.
  - rewrite lookup_insert_ne by done. eauto.
Qed.

Lemma world_ok_host_update w p b b' :
  world_ok w -> blocks (host w) !! p = Some b -> length b' = length b ->
  world_ok (with_host (with_blocks (<[p := b']> (blocks (host w))) (host w)) w).
Proof.
  intros [Hh Hg Hn Ho Hs] Hp Hl. split; norm; try done.
  - by eapply mem_ok_update.
  - intros a m Hm. apply (matrix_ok_frame w); [by eapply Ho | | eauto].
    intros c Hc. norm. by eapply lookup_update.
Qed.

Lemma world_ok_gpu_update w p b b' :
  world_ok w -> blocks (gpu w) !! p = Some b -> length b' = length b ->
  world_ok (with_gpu (with_blocks (<[p := b']> (blocks (gpu w))) (gpu w)) w).
Proof.
  intros [Hh Hg Hn Ho Hs] Hp Hl. split; norm; try done.
  - by eapply mem_ok_update.
  - intros a m Hm. apply (matrix_ok_frame w); [by eapply Ho | eauto |].
    intros c Hc. norm. by eapply lookup_update.
Qed.

Lemma world_ok_stats w this m x a :
  world_ok w -> objects w !! this = Some m ->
  world_ok (with_objects (<[this := set_avg_diff a (set_max_diff x m)]> (objects w)) w).
Proof.
  intros [Hh Hg Hn Ho Hs] Hm.
  assert (Hlook : forall b mb,
    <[this := set_avg_diff a (set_max_diff x m)]> (objects w) !! b = Some mb ->
    exists mb', objects w !! b = Some mb' /\ m_data mb = m_data mb' /\
                m_gpu_data mb = m_gpu_data mb' /\ (matrix_ok w mb' -> matrix_ok w mb)).
  { intros b mb. destruct (decide (this = b)) as [<-|Hne].
    - rewrite lookup_insert_eq. intros [= <-]. exists m.
      do 3 (split; [done|]). intros []. by split.
    - rewrite lookup_insert_ne by done. intros Hb. exists mb.
      by do 3 (split; [done|]). }
  split; norm; try done.
  - destruct (decide (this = nullptr)) as [->|Hne]; [congruence|].
    by rewrite lookup_insert_ne.
  - intros b mb Hb. destruct (Hlook b mb Hb) as (mb' & Hb' & _ & _ & Hok).
    apply (matrix_ok_frame w); [by eapply Hok, Ho | eauto | eauto].
  - intros b c mb mc Hne Hb Hc.
    destruct (Hlook b mb Hb) as (mb' & Hb' & -> & -> & _).
    destruct (Hlook c mc Hc) as (mc' & Hc' & -> & -> & _).
    by eapply Hs.
Qed.

Lemma world0_ok : world_ok world0.
Proof.
  split; try (split; [done|]); try done; intros *; simpl;
    try (intros _); rewrite lookup_empty; done.
Qed.

(** The constructor establishes the invariant. *)
Lemma constructed_ok w this row col name min max uniform :
  world_ok w -> this <> nullptr ->
  0 < row -> 0 < col ->
  row * col * sizeof_half < 2 ^ SIZE_WIDTH ->
  world_ok (constructed w this row col name min max uniform).
Proof.
  intros [[Hhb Hh] [Hgb Hg] Hn Ho Hs] Hthis Hrow Hcol Hfit.
  assert (Hpos : 0 < row * col) by lia.
  assert (Hfresh_h : forall p b, blocks (host w) !! p = Some b -> p <> brk (host w)).
  { intros p b Hp. apply Hh in Hp. lia. }
  assert (Hfresh_g : forall p b, blocks (gpu w) !! p = Some b -> p <> brk (gpu w)).
  { intros p b Hp. apply Hg in Hp. lia. }
  assert (Hnew : matrix_ok (constructed w this row col name min max uniform)
            {| m_row := row; m_col := col; m_name := name;
               m_min := min; m_max := max; m_elem_num := row * col;
               m_data := brk (host w); m_gpu_data := brk (gpu w);
               m_max_diff := fzero; m_avg_diff := fzero |}).
  { split; unfold constructed; norm; try done.
    - unfold size_t_mul. rewrite Z.mod_small; [done|]. unfold sizeof_half in *. lia.
    - eexists. split; [done|]. apply length_drawn. lia.
    - eexists. split; [done|]. apply length_drawn. lia. }
  assert (Hold : forall a m, objects w !! a = Some m ->
            matrix_ok (constructed w this row col name min max uniform) m).
  { intros a m Hm. apply (matrix_ok_frame w); [by eapply Ho | |].
    - intros h Hh'. exists h. unfold constructed. norm.
      rewrite lookup_insert_ne by (symmetry; by eapply Hfresh_h). done.
    - intros d Hd'. exists d. unfold constructed. norm.
      rewrite lookup_insert_ne by (symmetry; by eapply Hfresh_g). done. }
  unfold sizeof_half in *.
  split; unfold constructed, sizeof_half.
  - split; norm; [lia|]. intros p b.
    destruct (decide (brk (host w) = p)) as [<-|Hne].
    + intros _. lia.
    + rewrite lookup_insert_ne by done. intros Hp. apply Hh in Hp. lia.
  - split; norm; [lia|]. intros p b.
    destruct (decide (brk (gpu w) = p)) as [<-|Hne].
    + intros _. lia.
    + rewrite lookup_insert_ne by done. intros Hp. apply Hg in Hp. lia.
  - norm. by rewrite lookup_insert_ne.
  - intros a m. norm. destruct (decide (this = a)) as [<-|Hne].
    + rewrite lookup_insert_eq. by intros [= <-].
    + rewrite lookup_insert_ne by done. apply Hold.
  - intros a b ma mb Hne. norm.
    destruct (decide (this = a)) as [<-|Ha], (decide (this = b)) as [<-|Hb]; try done.
    + rewrite lookup_insert_eq, lookup_insert_ne by done. intros [= <-] Hmb. norm.
      destruct (Ho _ _ Hmb) as [_ _ _ _ _ (h & Hh' & _) (d & Hd' & _)].
      split; symmetry; eauto.
    + rewrite lookup_insert_eq, lookup_insert_ne by done. intros Hma [= <-]. norm.
      destruct (Ho _ _ Hma) as [_ _ _ _ _ (h & Hh' & _) (d & Hd' & _)].
      split; eauto.
    + rewrite !lookup_insert_ne by done. by apply Hs.
Qed.

(** What the invariant gives for one live object. *)
Lemma live_buffers w this m :
  world_ok w -> objects w !! this = Some m ->
  matrix_ok w m /\
  exists h d, blocks (host w) !! m_data m = Some h /\
              blocks (gpu w) !! m_gpu_data m = Some d /\
              Z.of_nat (length h) = m_elem_num m /\
              Z.of_nat (length d) = m_elem_num m.
Proof.
  intros Hw Hm. pose proof (ok_objects w Hw this m Hm) as Hok.
  split; [done|].
  destruct (ok_data _ _ Hok) as (h & Hh & Hlh).
  destruct (ok_gpu_data _ _ Hok) as (d & Hd & Hld). by exists h, d.
Qed.

Lemma elem_num_range w m : matrix_ok w m -> 0 < m_elem_num m < 2 ^ SIZE_WIDTH.
Proof. intros [_ _ _ Hpos Hb _ _]. unfold sizeof_half in Hb. lia. Qed.

Lemma host_content_eq w this m :
  objects w !! this = Some m -> host_content w this = blocks (host w) !! m_data m.
Proof. intros H. unfold host_content. by rewrite H. Qed.

Lemma device_content_eq w this m :
  objects w !! this = Some m -> device_content w this = blocks (gpu w) !! m_gpu_data m.
Proof. intros H. unfold device_content. by rewrite H. Qed.

Lemma world_after_Ok {A} (c : M A) w a w' : c w = Ok a w' -> world_after c w = w'.
Proof. intros H. unfold world_after. by rewrite H. Qed.

Lemma fault_of_Ok {A} (c : M A) w a w' : c w = Ok a w' -> fault_of c w = None.
Proof. intros H. unfold fault_of. by rewrite H. Qed.

(** Every method keeps the invariant. *)
Lemma moveToHost_world_ok w this m :
  world_ok w -> objects w !! this = Some m ->
  world_ok (world_after (moveToHost this) w).
Proof.
  intros Hw Hm. destruct (live_buffers w this m Hw Hm) as (Hok & h & d & Hh & Hd & Hlh & Hld).
  erewrite world_after_Ok by (by eapply moveToHost_Ok).
  eapply world_ok_host_update; [done | done | lia].
Qed.

Lemma zeros_world_ok w this m :
  world_ok w -> objects w !! this = Some m ->
  world_ok (world_after (zeros this) w).
Proof.
  intros Hw Hm. destruct (live_buffers w this m Hw Hm) as (Hok & h & d & Hh & Hd & Hlh & Hld).
  erewrite world_after_Ok by (by eapply zeros_Ok).
  match goal with |- world_ok (with_host (with_blocks (<[?p := ?b']> _) _) ?w1) =>
    apply (world_ok_host_update w1 p h b') end;
    [| norm; done | rewrite length_replicate; lia].
  eapply world_ok_gpu_update; [done | done | rewrite length_replicate; lia].
Qed.

Lemma random_world_ok w this m min max uniform :
  world_ok w -> objects w !! this = Some m ->
  world_ok (world_after (random this min max uniform) w).
Proof.
  intros Hw Hm. destruct (live_buffers w this m Hw Hm) as (Hok & h & d & Hh & Hd & Hlh & Hld).
  erewrite world_after_Ok by (by eapply random_Ok).
  eapply world_ok_host_update; [done | done | lia].
Qed.

Lemma tearUp_world_ok w this base m mb :
  world_ok w -> objects w !! this = Some m -> objects w !! base = Some mb ->
  m_row m = m_row mb -> m_col m = m_col mb ->
  world_ok (world_after (tearUp this base) w).
Proof.
  intros Hw Hm Hmb Hr Hc.
  destruct (live_buffers w this m Hw Hm) as (Hok & h & d & Hh & Hd & Hlh & Hld).
  destruct (live_buffers w base mb Hw Hmb) as (Hokb & hb & db & Hhb & Hdb & Hlhb & Hldb).
  assert (base <> nullptr) by (intros ->; pose proof (ok_null w Hw); congruence).
  pose proof (same_shape_elem w m mb Hok Hokb Hr Hc).
  erewrite world_after_Ok by (by eapply (tearUp_Ok w this base m mb)).
  eapply world_ok_gpu_update; [done | done | lia].
Qed.

Lemma checkValue_world_ok w this base m mb :
  world_ok w -> objects w !! this = Some m -> objects w !! base = Some mb ->
  m_row m = m_row mb -> m_col m = m_col mb ->
  world_ok (world_after (checkValue this base) w).
Proof.
  intros Hw Hm Hmb Hr Hc.
  destruct (live_buffers w this m Hw Hm) as (Hok & h & d & Hh & Hd & Hlh & Hld).
  destruct (live_buffers w base mb Hw Hmb) as (Hokb & hb & db & Hhb & Hdb & Hlhb & Hldb).
  assert (base <> nullptr) by (intros ->; pose proof (ok_null w Hw); congruence).
  erewrite world_after_Ok by (by eapply (checkValue_Ok w this base m mb)).
  by apply world_ok_stats.
Qed.

(** ** Failed checks *)

Lemma check_false b : b = false -> HGEMM_CHECK b = fatal CheckFailed.
Proof. by intros ->. Qed.

Lemma tearUp_null w this : tearUp this nullptr w = Fatal CheckFailed w.
Proof. done. Qed.

Lemma checkValue_null w this : checkValue this nullptr w = Fatal CheckFailed w.
Proof. done. Qed.

Lemma tearUp_mismatch w this base m mb :
  objects w !! this = Some m -> objects w !! base = Some mb -> base <> nullptr ->
  m_row m <> m_row mb \/ m_col m <> m_col mb ->
  tearUp this base w = Fatal CheckFailed w.
Proof.
  intros Hm Hmb Hnn Hne. unfold tearUp, HGEMM_CHECK_EQ.
  rewrite check_true by (by apply non_null_true). step.
  step_with ltac:(apply deref_Ok, Hm).
  step_with ltac:(unfold getRow; erewrite bind_Ok by (apply deref_Ok, Hmb)).
  destruct (decide (m_row m = m_row mb)) as [Hr|Hr].
  - rewrite check_true by (by apply Z.eqb_eq). step.
    step_with ltac:(unfold getCol; erewrite bind_Ok by (apply deref_Ok, Hmb)).
    rewrite check_false by (apply Z.eqb_neq; tauto). done.
  - rewrite check_false by (by apply Z.eqb_neq). done.
Qed.

Lemma checkValue_mismatch w this base m mb :
  objects w !! this = Some m -> objects w !! base = Some mb -> base <> nullptr ->
  m_row m <> m_row mb \/ m_col m <> m_col mb ->
  checkValue this base w = Fatal CheckFailed w.
Proof.
  intros Hm Hmb Hnn Hne. unfold checkValue, HGEMM_CHECK_EQ.
  rewrite check_true by (by apply non_null_true). step.
  step_with ltac:(apply deref_Ok, Hm).
  step_with ltac:(unfold getRow; erewrite bind_Ok by (apply deref_Ok, Hmb)).
  destruct (decide (m_row m = m_row mb)) as [Hr|Hr].
  - rewrite check_true by (by apply Z.eqb_eq). step.
    step_with ltac:(unfold getCol; erewrite bind_Ok by (apply deref_Ok, Hmb)).
    rewrite check_false by (apply Z.eqb_neq; tauto). done.
  - rewrite check_false by (by apply Z.eqb_neq). done.
Qed.

(** ** The concrete worlds *)

Lemma world_after_ctor w this row col name min max uniform :
  0 < brk (host w) -> 0 < brk (gpu w) ->
  0 < row -> 0 < col ->
  row * col * sizeof_half < 2 ^ SIZE_WIDTH ->
  brk (host w) + row * col * sizeof_half <= limit (host w) ->
  brk (gpu w) + row * col * sizeof_half <= limit (gpu w) ->
  world_after (Matrix_ctor this row col name min max uniform) w =
  constructed w this row col name min max uniform.
Proof. intros. apply world_after_Ok with tt. by apply ctor_Ok. Qed.

Lemma world_A_ok : world_ok world_A.
Proof.
  unfold world_A. rewrite world_after_ctor by (by vm_compute).
  apply constructed_ok; first [apply world0_ok | by vm_compute].
Qed.

Lemma world_AB_ok : world_ok world_AB.
Proof.
  unfold world_AB. rewrite world_after_ctor by (by vm_compute).
  apply constructed_ok; first [apply world_A_ok | by vm_compute].
Qed.

Lemma world_AB_A : objects world_AB !! obj_A = Some matrix_A.
Proof. by vm_compute. Qed.

Lemma world_AB_B : objects world_AB !! obj_B = Some matrix_B.
Proof. by vm_compute. Qed.

Lemma world_AB_host_A : host_content world_AB obj_A = Some (drawn draws_A 4).
Proof. by vm_compute. Qed.

Lemma world_AB_host_B : host_content world_AB obj_B = Some (drawn draws_B 4).
Proof. by vm_compute. Qed.

Lemma draws_A_finite : all_finite (drawn draws_A 4).
Proof. by vm_compute. Qed.

Lemma draws_B_finite : all_finite (drawn draws_B 4).
Proof. by vm_compute. Qed.

(** ** Differences: symmetry and NaN *)

Lemma abs_round_aux_sign prec emax s1 s2 mx ex lx :
  SFabs (binary_round_aux prec emax s1 mx ex lx) =
  SFabs (binary_round_aux prec emax s2 mx ex lx).
Proof.
  unfold binary_round_aux.
  destruct (shr_fexp prec emax mx ex lx) as [mrs' e'].
  destruct (shr_fexp prec emax _ e' loc_Exact) as [mrs'' e''].
  destruct (shr_m mrs''); try done. by destruct (_ <=? _).
Qed.

Lemma abs_round_sign prec emax s1 s2 m e :
  SFabs (binary_round prec emax s1 m e) = SFabs (binary_round prec emax s2 m e).
Proof.
  unfold binary_round. destruct (shl_align _ _ _) as [mz ez].
  apply abs_round_aux_sign.
Qed.

Lemma abs_normalize_opp prec emax v e :
  SFabs (binary_normalize prec emax (- v) e false) =
  SFabs (binary_normalize prec emax v e false).
Proof. destruct v; simpl; try done; apply abs_round_sign. Qed.

Lemma abs_fsub_comm a b : std_abs (fsub a b) = std_abs (fsub b a).
Proof.
  unfold std_abs, fsub.
  destruct a as [sa|sa| |sa ma ea], b as [sb|sb| |sb mb eb]; try done;
    try (by destruct sa, sb).
  unfold SFsub. rewrite (Z.min_comm eb ea).
  rewrite <- abs_normalize_opp. f_equal. f_equal. lia.
Qed.

Lemma elem_diff_comm x y : elem_diff x y = elem_diff y x.
Proof. unfold elem_diff. by rewrite abs_fsub_comm. Qed.

Lemma abs_diffs_comm xs ys : abs_diffs xs ys = abs_diffs ys xs.
Proof.
  unfold abs_diffs. revert ys. induction xs as [|x xs IH]; intros [|y ys]; try done.
  simpl. by rewrite elem_diff_comm, IH.
Qed.

Lemma is_nan_convert prec emax x : is_nan (convert prec emax x) = is_nan x.
Proof.
  destruct x as [s|s| |s m e]; try done. simpl.
  pose proof (round_signed prec emax s m e) as H.
  by destruct (binary_round _ _ _ _ _).
Qed.

Lemma is_nan_abs x : is_nan (std_abs x) = is_nan x.
Proof. by destruct x. Qed.

Lemma is_nan_elem_diff x y :
  is_nan (elem_diff x y) = is_nan (fsub (__half2float x) (__half2float y)).
Proof.
  unfold elem_diff, double_to_float, float_to_double.
  by rewrite !is_nan_convert, is_nan_abs.
Qed.

(** A difference is a NaN or has the sign of [+0]. *)
Lemma elem_diff_class x y :
  is_nan (elem_diff x y) = true \/ signed false (elem_diff x y).
Proof.
  unfold elem_diff, double_to_float, float_to_double.
  destruct (std_abs _) as [s|s| |s m e] eqn:E.
  - right. destruct (fsub _ _); simpl in E; by simplify_eq.
  - right. destruct (fsub _ _); simpl in E; by simplify_eq.
  - by left.
  - right. do 2 apply convert_signed. destruct (fsub _ _); simpl in E; by simplify_eq.
Qed.

Lemma fsub_nan_iff a b :
  is_nan (fsub a b) = true <->
  is_nan a = true \/ is_nan b = true \/
  exists s, a = S754_infinity s /\ b = S754_infinity s.
Proof.
  destruct (is_finite a) eqn:Ea, (is_finite b) eqn:Eb.
  - rewrite fsub_not_nan by done. split; [done|].
    intros [H|[H|(s & -> & ->)]]; [by destruct a | by destruct b | done].
  - destruct a as [sa|sa| |sa ma ea], b as [sb|sb| |sb mb eb]; try done; simpl;
      (split; [auto | intros [?|[?|(s & ? & ?)]]; done]).
  - destruct a as [sa|sa| |sa ma ea], b as [sb|sb| |sb mb eb]; try done; simpl;
      (split; [auto | intros [?|[?|(s & ? & ?)]]; done]).
  - destruct a as [sa|sa| |sa ma ea], b as [sb|sb| |sb mb eb]; try done; simpl;
      try (split; [auto | intros [?|[?|(s & ? & ?)]]; done]).
    destruct sa, sb; simpl; split; try done;
      try (intros [?|[?|(s & ? & ?)]]; by simplify_eq);
      intros _; right; right; by eexists.
Qed.

(** Widening keeps infinities and NaN, and only them. *)
Lemma half2float_inf h s :
  __half2float h = S754_infinity s <-> half_value h = S754_infinity s.
Proof.
  pose proof (half2float_finite h) as Hf. unfold half_finite, __half2float in *.
  destruct (half_value h) as [s'|s'| |s' m e]; simpl in *; try done.
  split; [|done]. intros E. rewrite E in Hf. by specialize (Hf eq_refl).
Qed.

Lemma fadd_nan_r x : fadd x S754_nan = S754_nan.
Proof. by destruct x. Qed.

Lemma fold_sum_nan_acc ds : fold_left fadd ds S754_nan = S754_nan.
Proof. induction ds as [|d ds IH]; [done|]. simpl. exact IH. Qed.

Lemma fold_sum_nan ds : forall acc,
  Exists (fun d => is_nan d = true) ds -> fold_left fadd ds acc = S754_nan.
Proof.
  induction ds as [|d ds IH]; intros acc H; inversion H as [? ? Hd|? ? Hds]; subst; simpl.
  - destruct d; try done. rewrite fadd_nan_r. apply fold_sum_nan_acc.
  - by apply IH.
Qed.

Lemma mean_of_nan n : mean_of S754_nan n = S754_nan.
Proof. unfold mean_of. simpl. by destruct (size_t_to_double n). Qed.

Lemma abs_diffs_class xs ys :
  Forall (fun d => is_nan d = true \/ signed false d) (abs_diffs xs ys).
Proof.
  unfold abs_diffs. revert ys. induction xs as [|x xs IH]; intros [|y ys];
    try constructor; [apply elem_diff_class | apply IH].
Qed.

Lemma no_nan_signed ds :
  Forall (fun d => is_nan d = true \/ signed false d) ds ->
  ~ Exists (fun d => is_nan d = true) ds -> Forall (signed false) ds.
Proof.
  induction 1 as [|d ds Hd Hds IH]; intros Hn; constructor.
  - destruct Hd as [Hd|Hd]; [|done]. destruct Hn. by left.
  - apply IH. intros H. apply Hn. by right.
Qed.

Lemma Exists_abs_diffs (P : float -> Prop) xs ys :
  Exists P (abs_diffs xs ys) <->
  exists i x y, xs !! i = Some x /\ ys !! i = Some y /\ P (elem_diff x y).
Proof.
  unfold abs_diffs. revert ys. induction xs as [|x xs IH]; intros ys.
  - simpl. split; [by inversion 1|]. by intros (i & x & y & ? & _).
  - destruct ys as [|y ys].
    + simpl. split; [by inversion 1|]. by intros (i & x' & y' & _ & ? & _).
    + simpl. rewrite Exists_cons, IH. split.
      * intros [H|(i & x' & y' & ? & ? & ?)]; [by exists 0%nat, x, y|].
        by exists (S i), x', y'.
      * intros ([|i] & x' & y' & Hx & Hy & HP); simpl in *.
        -- left. by simplify_eq.
        -- right. by exists i, x', y'.
Qed.

Lemma SFltb_not_nan a b : SFltb a b = true -> is_nan a = false /\ is_nan b = false.
Proof. by destruct a, b. Qed.

Lemma fold_max_nonneg ds : forall acc,
  nonneg acc = true ->
  nonneg (fold_left std_max ds acc) = true /\
  (fold_left std_max ds acc = acc \/ In (fold_left std_max ds acc) ds).
Proof.
  induction ds as [|d ds IH]; intros acc Hacc; [by auto|]. simpl.
  assert (Hs : nonneg (std_max acc d) = true).
  { unfold std_max. destruct (SFltb acc d) eqn:E; [|done].
    destruct (SFltb_not_nan _ _ E) as [Ha _].
    unfold nonneg in *. eapply SFleb_trans; [exact Ha | done | by apply SFltb_leb]. }
  destruct (IH _ Hs) as [Hn Hin]. split; [done|].
  destruct Hin as [Hin|Hin]; [|by auto].
  rewrite Hin. destruct (std_max_cases acc d) as [-> | ->]; auto.
Qed.

Lemma SFleb_not_nan a b : SFleb a b = true -> is_nan a = false /\ is_nan b = false.
Proof. by destruct a, b. Qed.

Lemma Forall_not_nan ds :
  Forall (fun d => is_nan d = false) ds <-> ~ Exists (fun d => is_nan d = true) ds.
Proof.
  rewrite Forall_forall, Exists_exists. split.
  - intros H (d & Hin & Hd). specialize (H d Hin). congruence.
  - intros H d Hin. destruct (is_nan d) eqn:E; [|done]. destruct H. by exists d.
Qed.

(** * The claims *)

(** ** Construction *)

(** C2, as amended.  For a shape with [row > 0], [col > 0] whose byte count
    [row * col * sizeof(half)] fits [size_t], in a world where both memories
    can hold that many bytes, the constructor succeeds: the element count is
    the product [row * col], both buffer pointers are not null, and host and
    device buffer hold the same content, the draws converted to half.  With
    [row = 0] or [col = 0] the constructor ends in a failed check. *)
Theorem ctor_spec w this row col name min max uniform :
  world_ok w ->
  (0 < row -> 0 < col ->
   row * col * sizeof_half < 2 ^ SIZE_WIDTH ->
   brk (host w) + row * col * sizeof_half <= limit (host w) ->
   brk (gpu w) + row * col * sizeof_half <= limit (gpu w) ->
   exists w' m,
     Matrix_ctor this row col name min max uniform w = Ok tt w' /\
     objects w' !! this = Some m /\
     getElemNum this w' = Ok (row * col) w' /\
     m_data m <> nullptr /\ m_gpu_data m <> nullptr /\
     host_content w' this = Some (drawn uniform (row * col)) /\
     device_content w' this = host_content w' this) /\
  (row = 0 \/ col = 0 ->
   exists w', Matrix_ctor this row col name min max uniform w = Fatal CheckFailed w').
Proof.
  intros Hw. destruct Hw as [[Hhb _] [Hgb _] _ _ _]. split.
  - intros Hrow Hcol Hfit Hh Hg.
    exists (constructed w this row col name min max uniform). eexists.
    split; [by apply ctor_Ok|].
    split; [unfold constructed; norm; done|]. norm.
    repeat split.
    + unfold getElemNum. erewrite bind_Ok by (apply deref_Ok; unfold constructed; norm; done).
      done.
    + unfold nullptr. lia.
    + unfold nullptr. lia.
    + unfold host_content, constructed. norm. simpl. by rewrite lookup_insert_eq.
    + unfold device_content, host_content, constructed. norm. simpl.
      by rewrite !lookup_insert_eq.
  - intros Hz. unfold Matrix_ctor, HGEMM_CHECK_GT. step. step.
    destruct (decide (row = 0)) as [->|Hr].
    + eexists. rewrite (check_false (0 >? 0)) by done.
      by erewrite bind_Fatal by reflexivity.
    + destruct Hz as [?| ->]; [done|].
      destruct (row >? 0) eqn:E.
      * rewrite (check_true true) by done. step. eexists.
        rewrite (check_false (0 >? 0)) by done. by erewrite bind_Fatal by reflexivity.
      * eexists. rewrite (check_false false) by done.
        by erewrite bind_Fatal by reflexivity.
Qed.

Lemma ctor_spec_witness :
  (exists w' m,
     Matrix_ctor obj_A 2 2 "A" default_min default_max draws_A world0 = Ok tt w' /\
     objects w' !! obj_A = Some m /\
     getElemNum obj_A w' = Ok (2 * 2) w' /\
     m_data m <> nullptr /\ m_gpu_data m <> nullptr /\
     host_content w' obj_A = Some (drawn draws_A (2 * 2)) /\
     device_content w' obj_A = host_content w' obj_A) /\
  (exists w', Matrix_ctor obj_A 0 2 "A" default_min default_max draws_A world0
              = Fatal CheckFailed w').
Proof.
  split.
  - apply (ctor_spec world0 obj_A 2 2 "A" default_min default_max draws_A world0_ok);
      by vm_compute.
  - apply (ctor_spec world0 obj_A 0 2 "A" default_min default_max draws_A world0_ok).
    by left.
Defined.

(** C2, the claim as stated fails: with 2^63 + 1 rows and 2 columns the
    constructor succeeds, and the element count is 2, the product wrapped
    around 2^64. *)
Lemma ctor_elem_num_wraps :
  let c := Matrix_ctor obj_A (2 ^ 63 + 1) 2 "A" default_min default_max draws_A in
  fault_of c world0 = None /\
  getElemNum obj_A (world_after c world0) = Ok 2 (world_after c world0) /\
  2 <> (2 ^ 63 + 1) * 2.
Proof. vm_compute. by repeat split. Qed.

(** With 2^32 rows and 2^32 columns the product wraps to 0 and the check
    of the element count ends the run. *)
Lemma ctor_elem_num_zero :
  fault_of (Matrix_ctor obj_A (2 ^ 32) (2 ^ 32) "A" default_min default_max draws_A)
    world0 = Some CheckFailed.
Proof. by vm_compute. Qed.

(** ** [zeros] *)

(** C4.  After [zeros()] every element of the device buffer and of the host
    buffer is the pattern 0x0000, which is the half +0.0. *)
Theorem zeros_all_zero w this m :
  world_ok w -> objects w !! this = Some m ->
  exists w',
    zeros this w = Ok tt w' /\
    host_content w' this = Some (replicate (Z.to_nat (m_elem_num m)) (Half 0)) /\
    device_content w' this = Some (replicate (Z.to_nat (m_elem_num m)) (Half 0)) /\
    half_value (Half 0) = fzero.
Proof.
  intros Hw Hm.
  destruct (live_buffers w this m Hw Hm) as (Hok & h & d & Hh & Hd & Hlh & Hld).
  eexists. split; [by eapply zeros_Ok|].
  unfold host_content, device_content. norm. rewrite Hm. simpl.
  by rewrite !lookup_insert_eq.
Qed.

Lemma zeros_all_zero_witness :
  exists w',
    zeros obj_A world_AB = Ok tt w' /\
    host_content w' obj_A = Some (replicate 4 (Half 0)) /\
    device_content w' obj_A = Some (replicate 4 (Half 0)) /\
    half_value (Half 0) = fzero.
Proof. exact (zeros_all_zero world_AB obj_A matrix_A world_AB_ok world_AB_A). Defined.

(** ** [random] *)

(** What [random] does in a well-formed world: the host buffer ends up with
    the content of the device buffer, and nothing else changes. *)
Lemma random_is_pull w this m min max uniform :
  world_ok w -> objects w !! this = Some m ->
  exists w' d,
    random this min max uniform w = Ok tt w' /\
    device_content w this = Some d /\
    host_content w' this = Some d /\
    gpu w' = gpu w /\ objects w' = objects w.
Proof.
  intros Hw Hm.
  destruct (live_buffers w this m Hw Hm) as (Hok & h & d & Hh & Hd & Hlh & Hld).
  eexists. exists d. split; [by eapply random_Ok|].
  unfold host_content, device_content. norm. rewrite Hm. simpl.
  by rewrite lookup_insert_eq.
Qed.

(** C9.  [random(min, max)] writes nothing to device memory: the device
    buffer holds after the call what it held before. *)
Theorem random_keeps_device w this m min max uniform :
  world_ok w -> objects w !! this = Some m ->
  exists w',
    random this min max uniform w = Ok tt w' /\
    gpu w' = gpu w /\
    device_content w' this = device_content w this.
Proof.
  intros Hw Hm.
  destruct (random_is_pull w this m min max uniform Hw Hm) as (w' & d & Hr & _ & _ & Hg & Ho).
  exists w'. split; [done|]. split; [done|].
  unfold device_content. by rewrite Hg, Ho.
Qed.

Lemma random_keeps_device_witness :
  exists w',
    random obj_A default_min default_max draws_B world_AB = Ok tt w' /\
    gpu w' = gpu world_AB /\
    device_content w' obj_A = device_content world_AB obj_A.
Proof.
  exact (random_keeps_device world_AB obj_A matrix_A default_min default_max draws_B
           world_AB_ok world_AB_A).
Defined.

(** C1, the code at the failing input.  [A] is 1 x 1 and holds 1.0
    (0x3C00) on host and device.  [random] runs without fault with the draw
    1.5 (0x3E00); afterwards host and device are equal, but to the old 1.0:
    the pull in [moveToHost] has overwritten the draw. *)
Theorem random_discards_draws :
  fault_of (random obj_A default_min default_max (fun _ => float_lit 3 (-1))) world_one = None /\
  drawn (fun _ => float_lit 3 (-1)) 1 = [Half 0x3E00] /\
  host_content world_one obj_A = Some [Half 0x3C00] /\
  host_content world_one_random obj_A = Some [Half 0x3C00] /\
  device_content world_one_random obj_A = Some [Half 0x3C00].
Proof. by vm_compute. Qed.

(** ** [tearUp] *)

(** C5, as amended.  For two objects of equal shape, [tearUp(base)] makes
    the device buffer of [this] hold what the host buffer of [base] holds,
    and leaves all host memory as it was, so the host buffer of [this] and
    the host buffer of [base]; when [base] is another object than [this],
    the device buffer of [base] is unchanged too. *)
Theorem tearUp_frame w this base m mb :
  world_ok w ->
  objects w !! this = Some m -> objects w !! base = Some mb ->
  m_row m = m_row mb -> m_col m = m_col mb ->
  exists w',
    tearUp this base w = Ok tt w' /\
    device_content w' this = host_content w base /\
    host_content w' this = host_content w this /\
    host_content w' base = host_content w base /\
    (this <> base -> device_content w' base = device_content w base).
Proof.
  intros Hw Hm Hmb Hr Hc.
  destruct (live_buffers w this m Hw Hm) as (Hok & h & d & Hh & Hd & Hlh & Hld).
  destruct (live_buffers w base mb Hw Hmb) as (Hokb & hb & db & Hhb & Hdb & Hlhb & Hldb).
  assert (base <> nullptr) by (intros ->; pose proof (ok_null w Hw); congruence).
  eexists. split; [by eapply (tearUp_Ok w this base m mb)|].
  unfold host_content, device_content. norm. rewrite Hm, Hmb. simpl.
  rewrite lookup_insert_eq. repeat split; try done.
  intros Hne. rewrite lookup_insert_ne; [done|].
  by apply (ok_separate w Hw this base m mb).
Qed.

Lemma tearUp_frame_witness :
  exists w',
    tearUp obj_A obj_B world_AB = Ok tt w' /\
    device_content w' obj_A = host_content world_AB obj_B /\
    host_content w' obj_A = host_content world_AB obj_A /\
    host_content w' obj_B = host_content world_AB obj_B /\
    device_content w' obj_B = device_content world_AB obj_B.
Proof.
  destruct (tearUp_frame world_AB obj_A obj_B matrix_A matrix_B world_AB_ok
              world_AB_A world_AB_B eq_refl eq_refl)
    as (w' & H1 & H2 & H3 & H4 & H5).
  exists w'. do 4 (split; [assumption|]). apply H5. discriminate.
Defined.

(** C5, the claim as stated fails when [base] is [this]: after
    [A.tearUp(&B)] the device buffer of [A] holds the content of [B];
    [A.tearUp(&A)] then runs without fault and the device buffer of its
    [base], [A], is not what it was. *)
Lemma tearUp_self_changes_device :
  fault_of (tearUp obj_A obj_A) world_torn = None /\
  device_content world_torn obj_A = Some (drawn draws_B 4) /\
  device_content (world_after (tearUp obj_A obj_A) world_torn) obj_A
    = Some (drawn draws_A 4) /\
  drawn draws_A 4 <> drawn draws_B 4.
Proof. vm_compute. by repeat split. Qed.

(** ** The checks of [tearUp] and [checkValue] *)

(** C6.  For [base] null or pointing to a live object, [tearUp(base)] and
    [checkValue(base)] end in a failed check exactly when [base] is null or
    the row counts or the column counts differ, they end in no other fault,
    and the world they end in on a fault is the world they started in. *)
Theorem checks_fail_fast w this base m :
  world_ok w -> objects w !! this = Some m ->
  base = nullptr \/ is_Some (objects w !! base) ->
  (shape_mismatch w this base <-> fault_of (tearUp this base) w = Some CheckFailed) /\
  (~ shape_mismatch w this base <-> fault_of (tearUp this base) w = None) /\
  (shape_mismatch w this base <-> fault_of (checkValue this base) w = Some CheckFailed) /\
  (~ shape_mismatch w this base <-> fault_of (checkValue this base) w = None) /\
  (forall f w', tearUp this base w = Fatal f w' -> w' = w) /\
  (forall f w', checkValue this base w = Fatal f w' -> w' = w).
Proof.
  intros Hw Hm Hbase.
  assert (Hcases :
    (shape_mismatch w this base /\
     tearUp this base w = Fatal CheckFailed w /\
     checkValue this base w = Fatal CheckFailed w) \/
    (~ shape_mismatch w this base /\
     (exists w', tearUp this base w = Ok tt w') /\
     (exists w', checkValue this base w = Ok tt w'))).
  { destruct Hbase as [-> | [mb Hmb]].
    - left. split; [by left|]. split; [apply tearUp_null | apply checkValue_null].
    - assert (Hnn : base <> nullptr) by (intros ->; pose proof (ok_null w Hw); congruence).
      destruct (decide (m_row m = m_row mb /\ m_col m = m_col mb)) as [[Hr Hc]|Hne].
      + right.
        destruct (live_buffers w this m Hw Hm) as (Hok & h & d & Hh & Hd & _).
        destruct (live_buffers w base mb Hw Hmb) as (Hokb & hb & db & Hhb & Hdb & _).
        split; [|split].
        * intros [? | (m' & mb' & Hm' & Hmb' & Hd')]; [done|]. simplify_eq. tauto.
        * eexists. by eapply (tearUp_Ok w this base m mb).
        * eexists. by eapply (checkValue_Ok w this base m mb).
      + assert (Hd : m_row m <> m_row mb \/ m_col m <> m_col mb).
        { destruct (decide (m_row m = m_row mb)); [right | left]; tauto. }
        left. split; [right; by exists m, mb|].
        split; [by eapply tearUp_mismatch | by eapply checkValue_mismatch]. }
  unfold fault_of.
  destruct Hcases as [(Hmis & -> & ->) | (Hok & [w1 ->] & [w2 ->])].
  - repeat split; try done; intros; by simplify_eq.
  - repeat split; try done.
Qed.

Lemma checks_fail_fast_witness :
  (shape_mismatch world_AB obj_A obj_B <->
     fault_of (tearUp obj_A obj_B) world_AB = Some CheckFailed) /\
  (~ shape_mismatch world_AB obj_A obj_B <->
     fault_of (tearUp obj_A obj_B) world_AB = None) /\
  (shape_mismatch world_AB obj_A obj_B <->
     fault_of (checkValue obj_A obj_B) world_AB = Some CheckFailed) /\
  (~ shape_mismatch world_AB obj_A obj_B <->
     fault_of (checkValue obj_A obj_B) world_AB = None) /\
  (forall f w', tearUp obj_A obj_B world_AB = Fatal f w' -> w' = world_AB) /\
  (forall f w', checkValue obj_A obj_B world_AB = Fatal f w' -> w' = world_AB).
Proof.
  exact (checks_fail_fast world_AB obj_A obj_B matrix_A world_AB_ok world_AB_A
           (or_intror (ex_intro _ matrix_B world_AB_B))).
Defined.

(** A null [base] and a [base] of another shape both end [tearUp] and
    [checkValue] in a failed check. *)
Lemma checks_fail_examples :
  let w := world_after (Matrix_ctor obj_B 4 1 "B" default_min default_max draws_B)
             world_A in
  fault_of (tearUp obj_A nullptr) w = Some CheckFailed /\
  fault_of (checkValue obj_A nullptr) w = Some CheckFailed /\
  fault_of (tearUp obj_A obj_B) w = Some CheckFailed /\
  fault_of (checkValue obj_A obj_B) w = Some CheckFailed.
Proof. by vm_compute. Qed.

(** ** [moveToHost] *)

(** [moveToHost] leaves host and device buffer of the object equal. *)
Lemma moveToHost_synced w this m :
  world_ok w -> objects w !! this = Some m ->
  synced (world_after (moveToHost this) w) this.
Proof.
  intros Hw Hm.
  destruct (live_buffers w this m Hw Hm) as (Hok & h & d & Hh & Hd & _).
  erewrite world_after_Ok by (by eapply moveToHost_Ok).
  unfold synced, host_content, device_content. norm. rewrite Hm. simpl.
  rewrite lookup_insert_eq. split; [by eexists | done].
Qed.

(** C7.  When host and device buffer hold the same content, as they do
    from a synchronisation until the device buffer is written, [moveToHost]
    changes nothing; and in every well-formed world a second [moveToHost]
    in a row changes nothing more than the first. *)
Theorem moveToHost_roundtrip w this m :
  world_ok w -> objects w !! this = Some m ->
  exists w1,
    moveToHost this w = Ok tt w1 /\
    moveToHost this w1 = Ok tt w1 /\
    (moveToHost this ;; moveToHost this) w = moveToHost this w /\
    (synced w this -> w1 = w /\ host_content w1 this = host_content w this).
Proof.
  intros Hw Hm.
  destruct (live_buffers w this m Hw Hm) as (Hok & h & d & Hh & Hd & Hlh & Hld).
  pose proof (moveToHost_Ok w this m h d Hok Hm Hh Hd) as H1.
  set (w1 := with_host (with_blocks (<[m_data m := d]> (blocks (host w))) (host w)) w) in *.
  assert (Hw1 : world_ok w1).
  { rewrite <- (world_after_Ok _ _ _ _ H1). by eapply moveToHost_world_ok. }
  assert (H2 : moveToHost this w1 = Ok tt w1).
  { destruct (live_buffers w1 this m Hw1 Hm) as (Hok1 & h1 & d1 & Hh1 & Hd1 & _).
    rewrite (moveToHost_Ok w1 this m h1 d1 Hok1 Hm Hh1 Hd1).
    subst w1. unfold with_host, with_blocks in *. simpl in *.
    rewrite lookup_insert_eq in Hh1. simplify_eq.
    by rewrite insert_insert_eq. }
  exists w1. split; [done|]. split; [done|]. split.
  - erewrite bind_Ok by exact H1. by rewrite H2, H1.
  - intros [_ Hs]. unfold host_content, device_content in Hs. rewrite Hm in Hs.
    simpl in Hs. rewrite Hh, Hd in Hs. simplify_eq.
    assert (w1 = w) as ->; [|done].
    subst w1. rewrite insert_id by done. by rewrite with_blocks_id, with_host_id.
Qed.

(** Host and device buffer of [A] are equal in [world_AB]. *)
Lemma world_AB_synced : synced world_AB obj_A.
Proof. split; [by eexists | by vm_compute]. Qed.

Lemma moveToHost_roundtrip_witness :
  exists w1,
    moveToHost obj_A world_AB = Ok tt w1 /\
    moveToHost obj_A w1 = Ok tt w1 /\
    (moveToHost obj_A ;; moveToHost obj_A) world_AB = moveToHost obj_A world_AB /\
    w1 = world_AB /\ host_content w1 obj_A = host_content world_AB obj_A.
Proof.
  destruct (moveToHost_roundtrip world_AB obj_A matrix_A world_AB_ok world_AB_A)
    as (w1 & H1 & H2 & H3 & H4).
  exists w1. do 3 (split; [assumption|]). apply H4, world_AB_synced.
Defined.

(** ** [checkValue] *)

Lemma all_finite_Forall xs :
  all_finite xs -> Forall (fun h => half_finite h = true) xs.
Proof.
  unfold all_finite. induction xs as [|x xs IH]; [constructor|].
  simpl. intros [Hx Hxs]%andb_true_iff. constructor; auto.
Qed.

(** C8.  [checkValue(base)] changes the two statistics of [this] and
    nothing else: host and device memory and every other object are as
    before, and so are the other members of [this]; and the statistics it
    stores do not depend on the statistics stored before the call. *)
Theorem checkValue_frame w this base m mb :
  world_ok w ->
  objects w !! this = Some m -> objects w !! base = Some mb ->
  m_row m = m_row mb -> m_col m = m_col mb ->
  exists w' x a,
    checkValue this base w = Ok tt w' /\
    host w' = host w /\ gpu w' = gpu w /\
    objects w' = <[this := set_avg_diff a (set_max_diff x m)]> (objects w) /\
    host_content w' this = host_content w this /\
    device_content w' this = device_content w this /\
    host_content w' base = host_content w base /\
    device_content w' base = device_content w base /\
    (forall x0 a0,
       checkValue this base
         (with_objects (<[this := set_avg_diff a0 (set_max_diff x0 m)]> (objects w)) w)
       = Ok tt w').
Proof.
  intros Hw Hm Hmb Hr Hc.
  destruct (live_buffers w this m Hw Hm) as (Hok & h & d & Hh & Hd & Hlh & Hld).
  destruct (live_buffers w base mb Hw Hmb) as (Hokb & hb & db & Hhb & Hdb & Hlhb & Hldb).
  assert (Hnn : base <> nullptr) by (intros ->; pose proof (ok_null w Hw); congruence).
  eexists. exists (running_max (abs_diffs h hb)),
    (mean_of (running_sum (abs_diffs h hb)) (m_elem_num m)).
  split; [by eapply (checkValue_Ok w this base m mb)|].
  do 3 (split; [done|]).
  assert (Hbase : forall x0 a0, exists mb',
    <[this := set_avg_diff a0 (set_max_diff x0 m)]> (objects w) !! base = Some mb' /\
    m_data mb' = m_data mb /\ m_gpu_data mb' = m_gpu_data mb /\
    m_row mb' = m_row mb /\ m_col mb' = m_col mb).
  { intros x0 a0. destruct (decide (this = base)) as [<-|Hne].
    - rewrite lookup_insert_eq. eexists. split; [done|]. by simplify_eq.
    - rewrite lookup_insert_ne by done. eauto 10. }
  unfold host_content, device_content. norm. rewrite Hm, Hmb. simpl.
  destruct (Hbase (running_max (abs_diffs h hb))
              (mean_of (running_sum (abs_diffs h hb)) (m_elem_num m)))
    as (mb' & -> & Hd1 & Hd2 & _). simpl. rewrite Hd1, Hd2.
  split_and!; try done.
  intros x0 a0.
  set (m0 := set_avg_diff a0 (set_max_diff x0 m)).
  set (w0 := with_objects (<[this := m0]> (objects w)) w).
  assert (Hw0 : world_ok w0) by (by apply world_ok_stats).
  assert (Hm0 : objects w0 !! this = Some m0) by (subst w0; norm; done).
  destruct (Hbase x0 a0) as (mb0 & Hmb0 & Hb1 & Hb2 & Hb3 & Hb4).
  rewrite (checkValue_Ok w0 this base m0 mb0 h hb); subst w0 m0; norm;
    try done; try congruence; try (by eapply (ok_objects _ Hw0)).
Qed.

Lemma checkValue_frame_witness :
  exists w' x a,
    checkValue obj_A obj_B world_AB = Ok tt w' /\
    host w' = host world_AB /\ gpu w' = gpu world_AB /\
    objects w' = <[obj_A := set_avg_diff a (set_max_diff x matrix_A)]> (objects world_AB) /\
    host_content w' obj_A = host_content world_AB obj_A /\
    device_content w' obj_A = device_content world_AB obj_A /\
    host_content w' obj_B = host_content world_AB obj_B /\
    device_content w' obj_B = device_content world_AB obj_B /\
    (forall x0 a0,
       checkValue obj_A obj_B
         (with_objects (<[obj_A := set_avg_diff a0 (set_max_diff x0 matrix_A)]>
                          (objects world_AB)) world_AB)
       = Ok tt w').
Proof.
  exact (checkValue_frame world_AB obj_A obj_B matrix_A matrix_B world_AB_ok
           world_AB_A world_AB_B eq_refl eq_refl).
Defined.

(** The statistics [checkValue] stores, in a well-formed world. *)
Lemma checkValue_result w this base m mb h hb :
  world_ok w ->
  objects w !! this = Some m -> objects w !! base = Some mb ->
  m_row m = m_row mb -> m_col m = m_col mb ->
  host_content w this = Some h -> host_content w base = Some hb ->
  length h = length hb /\ h <> [] /\ 0 < Z.of_nat (length h) < 2 ^ SIZE_WIDTH /\
  exists w' m',
    checkValue this base w = Ok tt w' /\
    objects w' !! this = Some m' /\
    m_max_diff m' = running_max (abs_diffs h hb) /\
    m_avg_diff m' = mean_of (running_sum (abs_diffs h hb)) (Z.of_nat (length h)).
Proof.
  intros Hw Hm Hmb Hr Hc Hh Hhb.
  rewrite (host_content_eq w this m Hm) in Hh.
  rewrite (host_content_eq w base mb Hmb) in Hhb.
  destruct (live_buffers w this m Hw Hm) as (Hok & h' & d & Hh' & Hd & Hlh & Hld).
  destruct (live_buffers w base mb Hw Hmb) as (Hokb & hb' & db & Hhb' & Hdb & Hlhb & Hldb).
  simplify_eq.
  assert (Hnn : base <> nullptr) by (intros ->; pose proof (ok_null w Hw); congruence).
  pose proof (same_shape_elem w m mb Hok Hokb Hr Hc) as He.
  pose proof (elem_num_range w m Hok) as Hrange.
  split; [lia|]. split; [intros ->; simpl in *; lia|]. split; [lia|].
  eexists. eexists. split; [by eapply (checkValue_Ok w this base m mb)|].
  norm. split; [done|]. norm. by rewrite Hlh.
Qed.

(** C3, as amended.  [checkValue(base)] stores as max-diff the running
    [std::max], from 0, of the per-element differences |this[i] - base[i]|
    taken in [float] after widening both halves, and as avg-diff their
    running [float] sum divided by the element count.  When no element of
    either host buffer is an infinity or a NaN, that max-diff is the maximum
    of the differences: one of them, and not below any of them.  When the
    two host buffers hold the same content and none of its elements is an
    infinity or a NaN, both statistics are +0. *)
Theorem checkValue_stats w this base m mb h hb :
  world_ok w ->
  objects w !! this = Some m -> objects w !! base = Some mb ->
  m_row m = m_row mb -> m_col m = m_col mb ->
  host_content w this = Some h -> host_content w base = Some hb ->
  exists w' m',
    checkValue this base w = Ok tt w' /\
    objects w' !! this = Some m' /\
    m_max_diff m' = running_max (abs_diffs h hb) /\
    m_avg_diff m' = mean_of (running_sum (abs_diffs h hb)) (Z.of_nat (length h)) /\
    (all_finite h -> all_finite hb ->
     In (m_max_diff m') (abs_diffs h hb) /\
     Forall (fun d => SFleb d (m_max_diff m') = true) (abs_diffs h hb)) /\
    (h = hb -> all_finite h ->
     m_max_diff m' = fzero /\ m_avg_diff m' = fzero).
Proof.
  intros Hw Hm Hmb Hr Hc Hh Hhb.
  destruct (checkValue_result w this base m mb h hb Hw Hm Hmb Hr Hc Hh Hhb)
    as (Hlen & Hne & Hn & w' & m' & Hrun & Hm' & Hmax & Havg).
  exists w', m'. do 4 (split; [done|]). split.
  - intros Hf Hfb. rewrite Hmax.
    assert (Hds : Forall (signed false) (abs_diffs h hb))
      by (by apply abs_diffs_signed; apply all_finite_Forall).
    assert (Hdne : abs_diffs h hb <> []).
    { intros E. apply (f_equal length) in E. rewrite length_abs_diffs in E by done.
      by destruct h. }
    destruct (running_max_spec _ Hds Hdne) as (_ & Hall & Hin). done.
  - intros <- Hf. rewrite Hmax, Havg.
    rewrite abs_diffs_self by (by apply all_finite_Forall).
    unfold running_max, running_sum. rewrite fold_max_zeros, fold_sum_zeros.
    by rewrite mean_of_zero.
Qed.

Lemma checkValue_stats_witness :
  (exists w' m',
     checkValue obj_A obj_B world_AB = Ok tt w' /\
     objects w' !! obj_A = Some m' /\
     m_max_diff m' = running_max (abs_diffs (drawn draws_A 4) (drawn draws_B 4)) /\
     m_avg_diff m' = mean_of (running_sum (abs_diffs (drawn draws_A 4) (drawn draws_B 4)))
                       (Z.of_nat (length (drawn draws_A 4))) /\
     In (m_max_diff m') (abs_diffs (drawn draws_A 4) (drawn draws_B 4)) /\
     Forall (fun d => SFleb d (m_max_diff m') = true)
       (abs_diffs (drawn draws_A 4) (drawn draws_B 4))) /\
  (exists w' m',
     checkValue obj_A obj_A world_AB = Ok tt w' /\
     objects w' !! obj_A = Some m' /\
     m_max_diff m' = fzero /\ m_avg_diff m' = fzero).
Proof.
  split.
  - destruct (checkValue_stats world_AB obj_A obj_B matrix_A matrix_B
                (drawn draws_A 4) (drawn draws_B 4) world_AB_ok
                world_AB_A world_AB_B eq_refl eq_refl world_AB_host_A world_AB_host_B)
      as (w' & m' & H1 & H2 & H3 & H4 & H5 & _).
    exists w', m'. do 4 (split; [assumption|]).
    exact (H5 draws_A_finite draws_B_finite).
  - destruct (checkValue_stats world_AB obj_A obj_A matrix_A matrix_A
                (drawn draws_A 4) (drawn draws_A 4) world_AB_ok
                world_AB_A world_AB_A eq_refl eq_refl world_AB_host_A world_AB_host_A)
      as (w' & m' & H1 & H2 & _ & _ & _ & H6).
    exists w', m'. do 2 (split; [assumption|]).
    exact (H6 eq_refl draws_A_finite).
Defined.

(** In [world_AB] the statistics of [A] against [B] are max-diff 0.5 and
    avg-diff 0.5. *)
Lemma world_AB_stats :
  stats (world_after (checkValue obj_A obj_B) world_AB) obj_A
    = Some (float_lit 1 (-1), float_lit 1 (-1)).
Proof. by vm_compute. Qed.

(** C3, the claim as stated fails: [A] and [B] both hold the single element
    +inf (0x7C00), [checkValue] runs without fault, and avg-diff is NaN, not
    0: the difference inf - inf is NaN, which [std::max] drops and the sum
    keeps. *)
Lemma checkValue_identical_inf :
  host_content world_inf obj_A = Some [Half 0x7C00] /\
  host_content world_inf obj_B = Some [Half 0x7C00] /\
  fault_of (checkValue obj_A obj_B) world_inf = None /\
  stats (world_after (checkValue obj_A obj_B) world_inf) obj_A
    = Some (fzero, S754_nan).
Proof. by vm_compute. Qed.

(** C10, as amended.  After a [checkValue(base)], whatever the two host
    buffers hold, [0 <= max-diff].  [0 <= avg-diff] holds exactly when no
    per-element difference is a NaN, and so does "no per-element difference
    is above max-diff"; no difference is a NaN when the buffers hold no
    infinity and no NaN. *)
Theorem checkValue_stats_nonneg w this base m mb h hb :
  world_ok w ->
  objects w !! this = Some m -> objects w !! base = Some mb ->
  m_row m = m_row mb -> m_col m = m_col mb ->
  host_content w this = Some h -> host_content w base = Some hb ->
  exists w' m',
    checkValue this base w = Ok tt w' /\
    objects w' !! this = Some m' /\
    nonneg (m_max_diff m') = true /\
    (nonneg (m_avg_diff m') = true <->
       Forall (fun d => is_nan d = false) (abs_diffs h hb)) /\
    (Forall (fun d => SFleb d (m_max_diff m') = true) (abs_diffs h hb) <->
       Forall (fun d => is_nan d = false) (abs_diffs h hb)) /\
    (all_finite h -> all_finite hb ->
       Forall (fun d => is_nan d = false) (abs_diffs h hb)).
Proof.
  intros Hw Hm Hmb Hr Hc Hh Hhb.
  destruct (checkValue_result w this base m mb h hb Hw Hm Hmb Hr Hc Hh Hhb)
    as (Hlen & Hne & Hn & w' & m' & Hrun & Hm' & Hmax & Havg).
  exists w', m'. do 2 (split; [done|]). rewrite Hmax, Havg.
  assert (Hdne : abs_diffs h hb <> []).
  { intros E. apply (f_equal length) in E. rewrite length_abs_diffs in E by done.
    by destruct h. }
  assert (Hsigned : Forall (fun d => is_nan d = false) (abs_diffs h hb) ->
                    Forall (signed false) (abs_diffs h hb)).
  { intros H. apply no_nan_signed; [apply abs_diffs_class | by apply Forall_not_nan]. }
  split; [apply (fold_max_nonneg (abs_diffs h hb) fzero eq_refl)|].
  split; [|split].
  - split.
    + intros Hnn. apply Forall_not_nan. intros Hex.
      unfold running_sum in Hnn.
      by rewrite (fold_sum_nan _ fzero Hex), mean_of_nan in Hnn.
    + intros Hno. apply mean_of_nonneg; [done|].
      unfold running_sum. by apply fold_sum_nonneg; [apply Hsigned|].
  - split.
    + intros H. eapply Forall_impl; [exact H|].
      intros d Hd. by destruct (SFleb_not_nan _ _ Hd).
    + intros Hno. by destruct (running_max_spec _ (Hsigned Hno) Hdne) as (_ & Hall & _).
  - intros Hf Hfb. eapply Forall_impl.
    + apply abs_diffs_signed; by apply all_finite_Forall.
    + intros d. apply signed_not_nan.
Qed.

Lemma checkValue_stats_nonneg_witness :
  exists w' m',
    checkValue obj_A obj_B world_AB = Ok tt w' /\
    objects w' !! obj_A = Some m' /\
    nonneg (m_max_diff m') = true /\
    (nonneg (m_avg_diff m') = true <->
       Forall (fun d => is_nan d = false)
         (abs_diffs (drawn draws_A 4) (drawn draws_B 4))) /\
    (Forall (fun d => SFleb d (m_max_diff m') = true)
       (abs_diffs (drawn draws_A 4) (drawn draws_B 4)) <->
       Forall (fun d => is_nan d = false)
         (abs_diffs (drawn draws_A 4) (drawn draws_B 4))) /\
    (all_finite (drawn draws_A 4) -> all_finite (drawn draws_B 4) ->
       Forall (fun d => is_nan d = false)
         (abs_diffs (drawn draws_A 4) (drawn draws_B 4))).
Proof.
  exact (checkValue_stats_nonneg world_AB obj_A obj_B matrix_A matrix_B
           (drawn draws_A 4) (drawn draws_B 4) world_AB_ok
           world_AB_A world_AB_B eq_refl eq_refl world_AB_host_A world_AB_host_B).
Defined.

(** C10, the claim as stated fails.  [A] holds three times 1.5 and [B] three
    times -2^-22, all finite: every difference is 12582914 * 2^-23, and so
    is max-diff, but the third partial sum rounds up and avg-diff is
    12582915 * 2^-23, above max-diff.  And comparing the buffer [+inf] with
    itself gives the avg-diff NaN, for which [0 <= avg-diff] is false. *)
Lemma checkValue_avg_above_max :
  all_finite (replicate 3 (Half 0x3E00)) /\ all_finite (replicate 3 (Half 0x8004)) /\
  host_content world_round obj_A = Some (replicate 3 (Half 0x3E00)) /\
  host_content world_round obj_B = Some (replicate 3 (Half 0x8004)) /\
  fault_of (checkValue obj_A obj_B) world_round = None /\
  stats (world_after (checkValue obj_A obj_B) world_round) obj_A
    = Some (S754_finite false 12582914 (-23), S754_finite false 12582915 (-23)) /\
  SFleb (S754_finite false 12582915 (-23)) (S754_finite false 12582914 (-23)) = false /\
  stats (world_after (checkValue obj_A obj_A) world_inf) obj_A = Some (fzero, S754_nan) /\
  nonneg S754_nan = false.
Proof. by vm_compute. Qed.

(** * Further properties *)

(** ** The difference of two elements *)

(** X14.  The difference [checkValue] takes of two elements is a NaN exactly
    when one of the two halves is a NaN or both are the same infinity. *)
Lemma elem_diff_nan_iff x y :
  is_nan (elem_diff x y) = true <->
  is_nan (half_value x) = true \/ is_nan (half_value y) = true \/
  exists s, half_value x = S754_infinity s /\ half_value y = S754_infinity s.
Proof.
  rewrite is_nan_elem_diff, fsub_nan_iff.
  assert (Hn : forall h, is_nan (__half2float h) = is_nan (half_value h))
    by (intros h; apply is_nan_convert).
  rewrite !Hn. split.
  - intros [H|[H|(s & H1 & H2)]]; auto.
    right. right. exists s. split; by apply half2float_inf.
  - intros [H|[H|(s & H1 & H2)]]; auto.
    right. right. exists s. split; by apply half2float_inf.
Qed.

(** ** [checkValue] on any content *)

(** X1.  Whatever the two host buffers hold, infinities and NaN included,
    the max-diff [checkValue] stores is not a NaN and not below 0; it is 0 or
    one of the per-element differences.  A NaN difference never shows in
    max-diff. *)
Theorem checkValue_max_never_nan w this base m mb h hb :
  world_ok w ->
  objects w !! this = Some m -> objects w !! base = Some mb ->
  m_row m = m_row mb -> m_col m = m_col mb ->
  host_content w this = Some h -> host_content w base = Some hb ->
  exists w' m',
    checkValue this base w = Ok tt w' /\
    objects w' !! this = Some m' /\
    is_nan (m_max_diff m') = false /\
    nonneg (m_max_diff m') = true /\
    (m_max_diff m' = fzero \/ In (m_max_diff m') (abs_diffs h hb)).
Proof.
  intros Hw Hm Hmb Hr Hc Hh Hhb.
  destruct (checkValue_result w this base m mb h hb Hw Hm Hmb Hr Hc Hh Hhb)
    as (_ & _ & _ & w' & m' & Hrun & Hm' & Hmax & _).
  exists w', m'. do 2 (split; [done|]). rewrite Hmax. unfold running_max.
  destruct (fold_max_nonneg (abs_diffs h hb) fzero eq_refl) as [Hn Hin].
  split; [by apply nonneg_not_nan | done].
Qed.

Lemma checkValue_max_never_nan_witness :
  exists w' m',
    checkValue obj_A obj_B world_AB = Ok tt w' /\
    objects w' !! obj_A = Some m' /\
    is_nan (m_max_diff m') = false /\
    nonneg (m_max_diff m') = true /\
    (m_max_diff m' = fzero \/
     In (m_max_diff m') (abs_diffs (drawn draws_A 4) (drawn draws_B 4))).
Proof.
  exact (checkValue_max_never_nan world_AB obj_A obj_B matrix_A matrix_B
           (drawn draws_A 4) (drawn draws_B 4) world_AB_ok
           world_AB_A world_AB_B eq_refl eq_refl world_AB_host_A world_AB_host_B).
Defined.

(** X2.  The avg-diff [checkValue] stores is a NaN exactly when, at some
    index, the difference of the two elements is a NaN. *)
Theorem checkValue_avg_nan_iff w this base m mb h hb :
  world_ok w ->
  objects w !! this = Some m -> objects w !! base = Some mb ->
  m_row m = m_row mb -> m_col m = m_col mb ->
  host_content w this = Some h -> host_content w base = Some hb ->
  exists w' m',
    checkValue this base w = Ok tt w' /\
    objects w' !! this = Some m' /\
    (is_nan (m_avg_diff m') = true <->
     exists i x y, h !! i = Some x /\ hb !! i = Some y /\
                   is_nan (elem_diff x y) = true).
Proof.
  intros Hw Hm Hmb Hr Hc Hh Hhb.
  destruct (checkValue_result w this base m mb h hb Hw Hm Hmb Hr Hc Hh Hhb)
    as (_ & _ & Hn & w' & m' & Hrun & Hm' & _ & Havg).
  exists w', m'. do 2 (split; [done|]). rewrite Havg.
  rewrite <- (Exists_abs_diffs (fun d => is_nan d = true)). split.
  - intros Hnan.
    destruct (decide (Exists (fun d => is_nan d = true) (abs_diffs h hb))) as [|Hno];
      [done|].
    pose proof (no_nan_signed _ (abs_diffs_class h hb) Hno) as Hs.
    pose proof (mean_of_nonneg _ _ Hn (fold_sum_nonneg _ fzero Hs eq_refl)) as Hnn.
    apply nonneg_not_nan in Hnn. unfold running_sum in Hnan. congruence.
  - intros Hex. unfold running_sum. rewrite (fold_sum_nan _ _ Hex).
    by rewrite mean_of_nan.
Qed.

Lemma checkValue_avg_nan_iff_witness :
  exists w' m',
    checkValue obj_A obj_B world_AB = Ok tt w' /\
    objects w' !! obj_A = Some m' /\
    (is_nan (m_avg_diff m') = true <->
     exists i x y, drawn draws_A 4 !! i = Some x /\ drawn draws_B 4 !! i = Some y /\
                   is_nan (elem_diff x y) = true).
Proof.
  exact (checkValue_avg_nan_iff world_AB obj_A obj_B matrix_A matrix_B
           (drawn draws_A 4) (drawn draws_B 4) world_AB_ok
           world_AB_A world_AB_B eq_refl eq_refl world_AB_host_A world_AB_host_B).
Defined.

(** X3.  [checkValue] is symmetric: from one world, [A.checkValue(&B)] and
    [B.checkValue(&A)] store the same max-diff and the same avg-diff. *)
Theorem checkValue_symmetric w this base m mb :
  world_ok w ->
  objects w !! this = Some m -> objects w !! base = Some mb ->
  m_row m = m_row mb -> m_col m = m_col mb ->
  exists w1 w2 m1 m2,
    checkValue this base w = Ok tt w1 /\ objects w1 !! this = Some m1 /\
    checkValue base this w = Ok tt w2 /\ objects w2 !! base = Some m2 /\
    m_max_diff m1 = m_max_diff m2 /\ m_avg_diff m1 = m_avg_diff m2.
Proof.
  intros Hw Hm Hmb Hr Hc.
  destruct (live_buffers w this m Hw Hm) as (_ & h & _ & Hh & _).
  destruct (live_buffers w base mb Hw Hmb) as (_ & hb & _ & Hhb & _).
  rewrite <- (host_content_eq w this m Hm) in Hh.
  rewrite <- (host_content_eq w base mb Hmb) in Hhb.
  destruct (checkValue_result w this base m mb h hb Hw Hm Hmb Hr Hc Hh Hhb)
    as (Hlen & _ & _ & w1 & m1 & Hrun1 & Hm1 & Hmax1 & Havg1).
  destruct (checkValue_result w base this mb m hb h Hw Hmb Hm
              (eq_sym Hr) (eq_sym Hc) Hhb Hh)
    as (_ & _ & _ & w2 & m2 & Hrun2 & Hm2 & Hmax2 & Havg2).
  exists w1, w2, m1, m2. do 4 (split; [done|]).
  rewrite Hmax1, Hmax2, Havg1, Havg2, (abs_diffs_comm hb h), Hlen. done.
Qed.

Lemma checkValue_symmetric_witness :
  exists w1 w2 m1 m2,
    checkValue obj_A obj_B world_AB = Ok tt w1 /\ objects w1 !! obj_A = Some m1 /\
    checkValue obj_B obj_A world_AB = Ok tt w2 /\ objects w2 !! obj_B = Some m2 /\
    m_max_diff m1 = m_max_diff m2 /\ m_avg_diff m1 = m_avg_diff m2.
Proof.
  exact (checkValue_symmetric world_AB obj_A obj_B matrix_A matrix_B world_AB_ok
           world_AB_A world_AB_B eq_refl eq_refl).
Defined.

(** ** Transfers *)

(** X4.  [moveToHost()] makes the host buffer of the object hold what its
    device buffer holds; device memory, the objects and the host buffers of
    all other objects are as before. *)
Theorem moveToHost_pulls w this m :
  world_ok w -> objects w !! this = Some m ->
  exists w',
    moveToHost this w = Ok tt w' /\
    host_content w' this = device_content w this /\
    gpu w' = gpu w /\ objects w' = objects w /\
    (forall other mo, other <> this -> objects w !! other = Some mo ->
       host_content w' other = host_content w other).
Proof.
  intros Hw Hm.
  destruct (live_buffers w this m Hw Hm) as (Hok & h & d & Hh & Hd & _).
  eexists. split; [by eapply moveToHost_Ok|].
  unfold host_content, device_content. norm. rewrite Hm. simpl.
  rewrite lookup_insert_eq. do 3 (split; [done|]).
  intros other mo Hne Hmo. rewrite Hmo. simpl.
  rewrite lookup_insert_ne; [done|].
  by apply (ok_separate w Hw this other m mo).
Qed.

Lemma moveToHost_pulls_witness :
  exists w',
    moveToHost obj_A world_torn = Ok tt w' /\
    host_content w' obj_A = device_content world_torn obj_A /\
    gpu w' = gpu world_torn /\ objects w' = objects world_torn /\
    (forall other mo, other <> obj_A -> objects world_torn !! other = Some mo ->
       host_content w' other = host_content world_torn other).
Proof.
  apply (moveToHost_pulls world_torn obj_A matrix_A).
  - exact (tearUp_world_ok world_AB obj_A obj_B matrix_A matrix_B world_AB_ok
             world_AB_A world_AB_B eq_refl eq_refl).
  - by vm_compute.
Defined.

(** X5.  In a well-formed world [random(min, max)] does exactly what
    [moveToHost()] does, whatever the range and the draws. *)
Theorem random_equals_moveToHost w this m min max uniform :
  world_ok w -> objects w !! this = Some m ->
  random this min max uniform w = moveToHost this w.
Proof.
  intros Hw Hm.
  destruct (live_buffers w this m Hw Hm) as (Hok & h & d & Hh & Hd & _).
  by rewrite (random_Ok w this m h d), (moveToHost_Ok w this m h d).
Qed.

Lemma random_equals_moveToHost_witness :
  random obj_A default_min default_max draws_B world_AB = moveToHost obj_A world_AB.
Proof.
  exact (random_equals_moveToHost world_AB obj_A matrix_A default_min default_max
           draws_B world_AB_ok world_AB_A).
Defined.

(** The world after [tearUp(base)] and [moveToHost()] on [this]. *)
Lemma tearUp_pull_Ok w this base m mb hb :
  world_ok w ->
  objects w !! this = Some m -> objects w !! base = Some mb ->
  m_row m = m_row mb -> m_col m = m_col mb ->
  host_content w base = Some hb ->
  let w2 := with_host (with_blocks (<[m_data m := hb]> (blocks (host w))) (host w))
              (with_gpu (with_blocks (<[m_gpu_data m := hb]> (blocks (gpu w))) (gpu w)) w) in
  (tearUp this base ;; moveToHost this) w = Ok tt w2 /\
  world_ok w2 /\
  host_content w2 this = Some hb /\ device_content w2 this = Some hb /\
  host_content w2 base = Some hb.
Proof.
  intros Hw Hm Hmb Hr Hc Hhb w2.
  rewrite (host_content_eq w base mb Hmb) in Hhb.
  destruct (live_buffers w this m Hw Hm) as (Hok & h & d & Hh & Hd & Hlh & Hld).
  destruct (live_buffers w base mb Hw Hmb) as (Hokb & hb' & db & Hhb' & Hdb & Hlhb & Hldb).
  simplify_eq.
  assert (Hnn : base <> nullptr) by (intros ->; pose proof (ok_null w Hw); congruence).
  pose proof (same_shape_elem w m mb Hok Hokb Hr Hc) as He.
  set (w1 := with_gpu (with_blocks (<[m_gpu_data m := hb]> (blocks (gpu w))) (gpu w)) w).
  assert (Hw1 : world_ok w1) by (eapply world_ok_gpu_update; [done | done | lia]).
  assert (Hw2 : world_ok w2).
  { apply (world_ok_host_update w1 (m_data m) h hb); [done | done | lia]. }
  split; [|split; [done|]].
  - erewrite bind_Ok by (by eapply (tearUp_Ok w this base m mb)).
    fold w1. rewrite (moveToHost_Ok w1 this m h hb); try done.
    + by eapply (ok_objects w1 Hw1).
    + subst w1. norm. done.
  - unfold host_content, device_content. subst w2. norm. rewrite Hm, Hmb. simpl.
    rewrite !lookup_insert_eq. do 2 (split; [done|]).
    destruct (decide (this = base)) as [<-|Hne].
    + simplify_eq. by rewrite lookup_insert_eq.
    + rewrite lookup_insert_ne; [done|].
      by apply (ok_separate w Hw this base m mb).
Qed.

(** X6.  [tearUp(base)] followed by [moveToHost()] leaves host and device
    buffer of [this] both holding what the host buffer of [base] holds, and
    that buffer unchanged. *)
Theorem tearUp_then_moveToHost w this base m mb hb :
  world_ok w ->
  objects w !! this = Some m -> objects w !! base = Some mb ->
  m_row m = m_row mb -> m_col m = m_col mb ->
  host_content w base = Some hb ->
  exists w',
    (tearUp this base ;; moveToHost this) w = Ok tt w' /\
    host_content w' this = Some hb /\ device_content w' this = Some hb /\
    host_content w' base = Some hb /\ synced w' this.
Proof.
  intros Hw Hm Hmb Hr Hc Hhb.
  destruct (tearUp_pull_Ok w this base m mb hb Hw Hm Hmb Hr Hc Hhb)
    as (Hrun & _ & H1 & H2 & H3).
  eexists. split; [exact Hrun|]. do 3 (split; [done|]).
  split; [rewrite H1; by eexists | by rewrite H1, H2].
Qed.

Lemma tearUp_then_moveToHost_witness :
  exists w',
    (tearUp obj_A obj_B ;; moveToHost obj_A) world_AB = Ok tt w' /\
    host_content w' obj_A = Some (drawn draws_B 4) /\
    device_content w' obj_A = Some (drawn draws_B 4) /\
    host_content w' obj_B = Some (drawn draws_B 4) /\ synced w' obj_A.
Proof.
  exact (tearUp_then_moveToHost world_AB obj_A obj_B matrix_A matrix_B
           (drawn draws_B 4) world_AB_ok world_AB_A world_AB_B eq_refl eq_refl
           world_AB_host_B).
Defined.

(** X7.  A matrix seeded from [base] by [tearUp(base)] and pulled back by
    [moveToHost()] compares equal to [base]: when the content of [base] has
    no infinity and no NaN, [checkValue(base)] stores max-diff +0 and
    avg-diff +0. *)
Theorem tearUp_pull_check_zero w this base m mb hb :
  world_ok w ->
  objects w !! this = Some m -> objects w !! base = Some mb ->
  m_row m = m_row mb -> m_col m = m_col mb ->
  host_content w base = Some hb -> all_finite hb ->
  exists w',
    (tearUp this base ;; moveToHost this ;; checkValue this base) w = Ok tt w' /\
    stats w' this = Some (fzero, fzero).
Proof.
  intros Hw Hm Hmb Hr Hc Hhb Hf.
  destruct (tearUp_pull_Ok w this base m mb hb Hw Hm Hmb Hr Hc Hhb)
    as (Hrun & Hw2 & H1 & _ & H3).
  set (w2 := with_host _ _) in *.
  destruct (checkValue_result w2 this base m mb hb hb Hw2 Hm Hmb Hr Hc H1 H3)
    as (_ & _ & Hn & w' & m' & Hcv & Hm' & Hmax & Havg).
  exists w'. split.
  - unfold mbind, M_bind in *. destruct (tearUp this base w) as [[] w1|]; [|done].
    by rewrite Hrun.
  - unfold stats. rewrite Hm'. simpl. rewrite Hmax, Havg.
    rewrite abs_diffs_self by (by apply all_finite_Forall).
    unfold running_max, running_sum. rewrite fold_max_zeros, fold_sum_zeros.
    by rewrite mean_of_zero.
Qed.

Lemma tearUp_pull_check_zero_witness :
  exists w',
    (tearUp obj_A obj_B ;; moveToHost obj_A ;; checkValue obj_A obj_B) world_AB
      = Ok tt w' /\
    stats w' obj_A = Some (fzero, fzero).
Proof.
  exact (tearUp_pull_check_zero world_AB obj_A obj_B matrix_A matrix_B
           (drawn draws_B 4) world_AB_ok world_AB_A world_AB_B eq_refl eq_refl
           world_AB_host_B draws_B_finite).
Defined.

(** ** Construction in general *)

Lemma ctor_Ok_wrapped w this row col name min max uniform :
  0 < brk (host w) -> 0 < brk (gpu w) ->
  0 < row -> 0 < col ->
  0 < size_t_mul row col ->
  size_t_mul row col * sizeof_half < 2 ^ SIZE_WIDTH ->
  brk (host w) + size_t_mul row col * sizeof_half <= limit (host w) ->
  brk (gpu w) + size_t_mul row col * sizeof_half <= limit (gpu w) ->
  Matrix_ctor this row col name min max uniform w =
  Ok tt (built w this row col name min max uniform).
Proof.
  intros Hhb Hgb Hrow Hcol. unfold built. cbv zeta.
  remember (size_t_mul row col) as n eqn:En.
  intros Hn Hfit Hhost Hgpu.
  assert (Hb : size_t_mul n sizeof_half = n * sizeof_half).
  { unfold size_t_mul. apply Z.mod_small. unfold sizeof_half, SIZE_WIDTH in *. lia. }
  assert (Hmax : Z.max 1 (n * sizeof_half) = n * sizeof_half).
  { unfold sizeof_half. lia. }
  assert (Hdiv : n * sizeof_half / sizeof_half = n).
  { unfold sizeof_half. apply Z.div_mul. lia. }
  unfold Matrix_ctor, HGEMM_CHECK_GT.
  step. step.
  rewrite (check_true (row >? 0)) by (apply Z.gtb_lt; lia). step.
  rewrite (check_true (col >? 0)) by (apply Z.gtb_lt; lia). step.
  step. step. rewrite <- En.
  rewrite (check_true (n >? 0)) by (apply Z.gtb_lt; lia). step.
  step_with ltac:(apply new_half_array_Ok; norm; [done | lia]).
  step. step.
  rewrite check_true by (apply non_null_true; unfold nullptr; lia). step.
  rewrite Hb.
  step_with ltac:(apply cuda_check_Ok, cudaMalloc_Ok;
                  [unfold sizeof_half in *; lia | norm; lia | apply assign_Ok]).
  step.
  rewrite check_true by (apply non_null_true; unfold nullptr; lia). step.
  rewrite Hmax, Hdiv.
  unfold for_size_t.
  step_with ltac:(erewrite fill_loop; [| norm; done | lia | rewrite length_fresh_block by lia; lia]).
  rewrite Hb.
  replace (Z.to_nat n) with (length (fresh_block (host w) n))
    by (pose proof (length_fresh_block (host w) n); lia).
  rewrite fill_all, length_fresh_block by lia. fold (drawn uniform n).
  pose proof (length_drawn uniform n).
  pose proof (length_fresh_block (gpu w) n).
  step_with ltac:(eapply cuda_check_Ok, cudaMemcpy_H2D_Ok; norm;
                  [ done | done | lia | lia ]).
  unfold HLOG, with_host, with_gpu, with_objects, with_blocks. simpl.
  rewrite ?insert_insert_eq. done.
Qed.

Lemma bind_fatal {B} f (k : unit -> M B) w : (fatal f ≫= k) w = Fatal f w.
Proof. done. Qed.

Lemma ctor_check_fails w this row col name min max uniform :
  row <= 0 \/ col <= 0 \/ size_t_mul row col = 0 ->
  exists w', Matrix_ctor this row col name min max uniform w = Fatal CheckFailed w'.
Proof.
  intros Hz. unfold Matrix_ctor, HGEMM_CHECK_GT. step. step.
  destruct (row >? 0) eqn:Er.
  - rewrite (check_true true) by done. step.
    destruct (col >? 0) eqn:Ec.
    + rewrite (check_true true) by done. step. step. step.
      destruct Hz as [Hz|[Hz|Hz]]; [apply Z.gtb_lt in Er; lia | apply Z.gtb_lt in Ec; lia |].
      rewrite Hz. rewrite (check_false (0 >? 0)) by done. rewrite bind_fatal. eauto.
    + rewrite (check_false false) by done. rewrite bind_fatal. eauto.
  - rewrite (check_false false) by done. rewrite bind_fatal. eauto.
Qed.

Lemma ctor_bad_alloc w this row col name min max uniform :
  0 < row -> 0 < col -> 0 < size_t_mul row col ->
  2 ^ SIZE_WIDTH <= size_t_mul row col * sizeof_half \/
  limit (host w) < brk (host w) + size_t_mul row col * sizeof_half ->
  exists w', Matrix_ctor this row col name min max uniform w = Fatal BadAlloc w'.
Proof.
  intros Hrow Hcol. remember (size_t_mul row col) as n eqn:En. intros Hn Hbad.
  unfold Matrix_ctor, HGEMM_CHECK_GT. step. step.
  rewrite (check_true (row >? 0)) by (apply Z.gtb_lt; lia). step.
  rewrite (check_true (col >? 0)) by (apply Z.gtb_lt; lia). step.
  step. step. rewrite <- En.
  rewrite (check_true (n >? 0)) by (apply Z.gtb_lt; lia). step.
  eexists. erewrite bind_Fatal; [done|].
  unfold new_half_array, mem_alloc. norm.
  destruct (decide (n * sizeof_half < 2 ^ SIZE_WIDTH)); [|done].
  rewrite decide_False; [done|]. unfold sizeof_half in *. lia.
Qed.

Lemma ctor_cuda_error w this row col name min max uniform :
  0 < brk (host w) ->
  0 < row -> 0 < col -> 0 < size_t_mul row col ->
  size_t_mul row col * sizeof_half < 2 ^ SIZE_WIDTH ->
  brk (host w) + size_t_mul row col * sizeof_half <= limit (host w) ->
  limit (gpu w) < brk (gpu w) + size_t_mul row col * sizeof_half ->
  exists w', Matrix_ctor this row col name min max uniform w = Fatal CudaError w'.
Proof.
  intros Hhb Hrow Hcol. remember (size_t_mul row col) as n eqn:En.
  intros Hn Hfit Hhost Hgpu.
  assert (Hb : size_t_mul n sizeof_half = n * sizeof_half).
  { unfold size_t_mul. apply Z.mod_small. unfold sizeof_half, SIZE_WIDTH in *. lia. }
  unfold Matrix_ctor, HGEMM_CHECK_GT. step. step.
  rewrite (check_true (row >? 0)) by (apply Z.gtb_lt; lia). step.
  rewrite (check_true (col >? 0)) by (apply Z.gtb_lt; lia). step.
  step. step. rewrite <- En.
  rewrite (check_true (n >? 0)) by (apply Z.gtb_lt; lia). step.
  step_with ltac:(apply new_half_array_Ok; norm; unfold sizeof_half in *; [done | lia]).
  step. step.
  rewrite check_true by (apply non_null_true; unfold nullptr; lia). step.
  rewrite Hb.
  eexists. erewrite bind_Fatal; [done|].
  unfold HGEMM_CHECK_CUDART_ERROR.
  erewrite bind_Ok; cycle 1.
  { unfold cudaMalloc, mem_alloc. norm.
    rewrite decide_False by (unfold sizeof_half in *; lia).
    rewrite decide_False; [done|]. unfold sizeof_half in *. lia. }
  done.
Qed.

(** X8.  The outcome of the constructor, with [n] the product of the shape
    in [size_t]: a failed check when a dimension is 0 or [n] is 0, the
    product having wrapped; [std::bad_alloc] when [n] halves do not fit
    [size_t] or the host heap; a CUDA error when they do not fit device
    memory; otherwise no fault, with element count [n], which is not the
    product when that wrapped. *)
Theorem ctor_outcome w this row col name min max uniform :
  0 < brk (host w) -> 0 < brk (gpu w) ->
  let c := Matrix_ctor this row col name min max uniform in
  let n := size_t_mul row col in
  (row <= 0 \/ col <= 0 \/ n = 0 -> fault_of c w = Some CheckFailed) /\
  (0 < row -> 0 < col -> 0 < n ->
   2 ^ SIZE_WIDTH <= n * sizeof_half \/ limit (host w) < brk (host w) + n * sizeof_half ->
   fault_of c w = Some BadAlloc) /\
  (0 < row -> 0 < col -> 0 < n -> n * sizeof_half < 2 ^ SIZE_WIDTH ->
   brk (host w) + n * sizeof_half <= limit (host w) ->
   limit (gpu w) < brk (gpu w) + n * sizeof_half ->
   fault_of c w = Some CudaError) /\
  (0 < row -> 0 < col -> 0 < n -> n * sizeof_half < 2 ^ SIZE_WIDTH ->
   brk (host w) + n * sizeof_half <= limit (host w) ->
   brk (gpu w) + n * sizeof_half <= limit (gpu w) ->
   fault_of c w = None /\
   getElemNum this (world_after c w) = Ok n (world_after c w) /\
   host_content (world_after c w) this = Some (drawn uniform n) /\
   device_content (world_after c w) this = Some (drawn uniform n)).
Proof.
  intros Hhb Hgb c n. subst c n. unfold fault_of, world_after. split_and!.
  - intros H. by destruct (ctor_check_fails w this row col name min max uniform H) as [w' ->].
  - intros H1 H2 H3 H4.
    by destruct (ctor_bad_alloc w this row col name min max uniform H1 H2 H3 H4) as [w' ->].
  - intros H1 H2 H3 H4 H5 H6.
    by destruct (ctor_cuda_error w this row col name min max uniform Hhb H1 H2 H3 H4 H5 H6)
      as [w' ->].
  - intros H1 H2 H3 H4 H5 H6. rewrite ctor_Ok_wrapped by done.
    split; [done|]. unfold getElemNum, host_content, device_content, built.
    erewrite bind_Ok by (apply deref_Ok; norm; done). norm. simpl.
    by rewrite !lookup_insert_eq.
Qed.

Lemma ctor_outcome_witness :
  fault_of (Matrix_ctor obj_A (2 ^ 32) (2 ^ 32) "A" default_min default_max draws_A)
    world0 = Some CheckFailed /\
  fault_of (Matrix_ctor obj_A (2 ^ 63) 1 "A" default_min default_max draws_A)
    world0 = Some BadAlloc /\
  fault_of (Matrix_ctor obj_A 2 2 "A" default_min default_max draws_A)
    (with_gpu {| blocks := ∅; brk := 0x7000000; limit := 0x7000004;
                 raw := fun _ => Half 0 |} world0) = Some CudaError /\
  (let c := Matrix_ctor obj_A (2 ^ 63 + 1) 2 "A" default_min default_max draws_A in
   fault_of c world0 = None /\
   getElemNum obj_A (world_after c world0) = Ok 2 (world_after c world0) /\
   host_content (world_after c world0) obj_A = Some (drawn draws_A 2) /\
   device_content (world_after c world0) obj_A = Some (drawn draws_A 2)).
Proof.
  split_and!.
  - apply (ctor_outcome world0 obj_A (2 ^ 32) (2 ^ 32) "A" default_min default_max draws_A);
      [reflexivity | reflexivity | right; right; reflexivity].
  - apply (ctor_outcome world0 obj_A (2 ^ 63) 1 "A" default_min default_max draws_A);
      try reflexivity. left. by vm_compute.
  - apply (ctor_outcome (with_gpu {| blocks := ∅; brk := 0x7000000; limit := 0x7000004;
                 raw := fun _ => Half 0 |} world0)
             obj_A 2 2 "A" default_min default_max draws_A); try reflexivity;
      by vm_compute.
  - apply (ctor_outcome world0 obj_A (2 ^ 63 + 1) 2 "A" default_min default_max draws_A);
      try reflexivity; by vm_compute.
Defined.

Lemma built_ok w this row col name min max uniform :
  world_ok w -> this <> nullptr ->
  0 < row -> 0 < col -> 0 < size_t_mul row col ->
  size_t_mul row col * sizeof_half < 2 ^ SIZE_WIDTH ->
  world_ok (built w this row col name min max uniform).
Proof.
  intros [[Hhb Hh] [Hgb Hg] Hn Ho Hs] Hthis Hrow Hcol. unfold built. cbv zeta.
  set (mnew := Build_Matrix _ _ _ _ _ _ _ _ _ _).
  set (w' := Build_World _ _ _).
  intros Hpos Hfit.
  assert (Hfresh_h : forall p b, blocks (host w) !! p = Some b -> p <> brk (host w)).
  { intros p b Hp. apply Hh in Hp. lia. }
  assert (Hfresh_g : forall p b, blocks (gpu w) !! p = Some b -> p <> brk (gpu w)).
  { intros p b Hp. apply Hg in Hp. lia. }
  assert (Hnew : matrix_ok w' mnew).
  { split; subst w' mnew; norm; try done.
    - eexists. split; [done|]. apply length_drawn. lia.
    - eexists. split; [done|]. apply length_drawn. lia. }
  assert (Hold : forall a m, objects w !! a = Some m -> matrix_ok w' m).
  { intros a m Hm. apply (matrix_ok_frame w); [by eapply Ho | |].
    - intros h Hh'. exists h. subst w'. norm.
      rewrite lookup_insert_ne by (symmetry; by eapply Hfresh_h). done.
    - intros d Hd'. exists d. subst w'. norm.
      rewrite lookup_insert_ne by (symmetry; by eapply Hfresh_g). done. }
  unfold sizeof_half in *.
  split; subst w'; norm.
  - split; norm; [lia|]. intros p b.
    destruct (decide (brk (host w) = p)) as [<-|Hne].
    + intros _. lia.
    + rewrite lookup_insert_ne by done. intros Hp. apply Hh in Hp. lia.
  - split; norm; [lia|]. intros p b.
    destruct (decide (brk (gpu w) = p)) as [<-|Hne].
    + intros _. lia.
    + rewrite lookup_insert_ne by done. intros Hp. apply Hg in Hp. lia.
  - by rewrite lookup_insert_ne.
  - intros a m. destruct (decide (this = a)) as [<-|Hne].
    + rewrite lookup_insert_eq. by intros [= <-].
    + rewrite lookup_insert_ne by done. apply Hold.
  - intros a b ma mb Hne.
    destruct (decide (this = a)) as [<-|Ha], (decide (this = b)) as [<-|Hb]; try done.
    + rewrite lookup_insert_eq, lookup_insert_ne by done. intros [= <-] Hmb.
      subst mnew. norm.
      destruct (Ho _ _ Hmb) as [_ _ _ _ _ (h & Hh' & _) (d & Hd' & _)].
      split; symmetry; eauto.
    + rewrite lookup_insert_eq, lookup_insert_ne by done. intros Hma [= <-].
      subst mnew. norm.
      destruct (Ho _ _ Hma) as [_ _ _ _ _ (h & Hh' & _) (d & Hd' & _)].
      split; eauto.
    + rewrite !lookup_insert_ne by done. by apply Hs.
Qed.

(** A constructor that returns has met all its checks. *)
Lemma ctor_Ok_inv w this row col name min max uniform w' :
  0 < brk (host w) -> 0 < brk (gpu w) ->
  Matrix_ctor this row col name min max uniform w = Ok tt w' ->
  0 < row /\ 0 < col /\ 0 < size_t_mul row col /\
  size_t_mul row col * sizeof_half < 2 ^ SIZE_WIDTH /\
  w' = built w this row col name min max uniform.
Proof.
  intros Hhb Hgb Hrun.
  assert (Hn0 : 0 <= size_t_mul row col).
  { unfold size_t_mul. apply Z.mod_pos_bound. by vm_compute. }
  destruct (decide (row <= 0 \/ col <= 0 \/ size_t_mul row col = 0)) as [Hz|Hz].
  { destruct (ctor_check_fails w this row col name min max uniform Hz) as [w1 H1].
    congruence. }
  assert (0 < row /\ 0 < col /\ 0 < size_t_mul row col) as (Hr & Hc & Hn) by lia.
  destruct (decide (2 ^ SIZE_WIDTH <= size_t_mul row col * sizeof_half \/
                    limit (host w) < brk (host w) + size_t_mul row col * sizeof_half))
    as [Hb|Hb].
  { destruct (ctor_bad_alloc w this row col name min max uniform Hr Hc Hn Hb) as [w1 H1].
    congruence. }
  destruct (decide (limit (gpu w) < brk (gpu w) + size_t_mul row col * sizeof_half))
    as [Hg|Hg].
  { destruct (ctor_cuda_error w this row col name min max uniform Hhb Hr Hc Hn
                ltac:(lia) ltac:(lia) Hg) as [w1 H1].
    congruence. }
  rewrite ctor_Ok_wrapped in Hrun by lia. simplify_eq. repeat split; by try lia.
Qed.

(** ** The destructor *)

Lemma dtor_Ok w this m :
  world_ok w -> objects w !! this = Some m ->
  Matrix_dtor this w =
  Ok tt {| host := with_blocks (delete (m_data m) (blocks (host w))) (host w);
           gpu := with_blocks (delete (m_gpu_data m) (blocks (gpu w))) (gpu w);
           objects := delete this (objects w) |}.
Proof.
  intros Hw Hm.
  destruct (live_buffers w this m Hw Hm) as (Hok & h & d & Hh & Hd & _).
  pose proof (proj2 (ok_host w Hw) _ _ Hh) as Hph.
  pose proof (proj2 (ok_gpu w Hw) _ _ Hd) as Hpd.
  unfold Matrix_dtor.
  step_with ltac:(apply deref_Ok, Hm).
  rewrite (non_null_true (m_data m)) by (unfold nullptr; lia).
  step_with ltac:(erewrite bind_Ok;
    [|unfold delete_half_array; rewrite Hh; reflexivity]; apply assign_Ok; norm; exact Hm).
  step.
  rewrite (non_null_true (m_gpu_data m)) by (unfold nullptr; lia).
  step_with ltac:(erewrite bind_Ok;
    [|apply cuda_check_Ok; unfold cudaFree; norm;
      rewrite decide_False by (unfold nullptr; lia); rewrite Hd; reflexivity];
    apply assign_Ok; norm; done).
  unfold end_of_lifetime, with_host, with_gpu, with_objects. simpl.
  by rewrite delete_insert_eq.
Qed.

Lemma destroyed_ok w this m :
  world_ok w -> objects w !! this = Some m ->
  world_ok {| host := with_blocks (delete (m_data m) (blocks (host w))) (host w);
              gpu := with_blocks (delete (m_gpu_data m) (blocks (gpu w))) (gpu w);
              objects := delete this (objects w) |}.
Proof.
  intros Hw Hm. pose proof Hw as [[Hhb Hh] [Hgb Hg] Hn Ho Hs]. split; norm.
  - split; [done|]. intros p b. norm. intros [_ Hp]%lookup_delete_Some. by eapply Hh.
  - split; [done|]. intros p b. norm. intros [_ Hp]%lookup_delete_Some. by eapply Hg.
  - apply lookup_delete_None. by right.
  - intros a ma [Hne Hma]%lookup_delete_Some.
    destruct (Hs this a m ma Hne Hm Hma) as [Hd1 Hd2].
    apply (matrix_ok_frame w); [by eapply Ho | |].
    + intros h Hh'. exists h. norm. by rewrite lookup_delete_ne.
    + intros d Hd'. exists d. norm. by rewrite lookup_delete_ne.
  - intros a b ma mb Hne [_ Hma]%lookup_delete_Some [_ Hmb]%lookup_delete_Some.
    by eapply Hs.
Qed.

(** X9.  The destructor of a live object returns, after which the object
    is gone and neither of its two buffers is allocated; every other object
    and its two buffers are untouched, and the world is well formed. *)
Theorem dtor_releases w this m :
  world_ok w -> objects w !! this = Some m ->
  exists w',
    Matrix_dtor this w = Ok tt w' /\
    objects w' !! this = None /\
    blocks (host w') !! m_data m = None /\
    blocks (gpu w') !! m_gpu_data m = None /\
    (forall other mo, other <> this -> objects w !! other = Some mo ->
       objects w' !! other = Some mo /\
       host_content w' other = host_content w other /\
       device_content w' other = device_content w other) /\
    world_ok w'.
Proof.
  intros Hw Hm. eexists. split; [by apply dtor_Ok|]. norm.
  rewrite !lookup_delete_eq. do 3 (split; [done|]).
  split; [|by apply destroyed_ok].
  intros other mo Hne Hmo.
  destruct (ok_separate w Hw this other m mo (not_eq_sym Hne) Hm Hmo) as [Hd1 Hd2].
  unfold host_content, device_content. norm.
  rewrite lookup_delete_ne by done. rewrite Hmo. simpl.
  by rewrite !lookup_delete_ne.
Qed.

Lemma dtor_releases_witness :
  exists w',
    Matrix_dtor obj_A world_AB = Ok tt w' /\
    objects w' !! obj_A = None /\
    blocks (host w') !! m_data matrix_A = None /\
    blocks (gpu w') !! m_gpu_data matrix_A = None /\
    (forall other mo, other <> obj_A -> objects world_AB !! other = Some mo ->
       objects w' !! other = Some mo /\
       host_content w' other = host_content world_AB other /\
       device_content w' other = device_content world_AB other) /\
    world_ok w'.
Proof. exact (dtor_releases world_AB obj_A matrix_A world_AB_ok world_AB_A). Defined.

(** X10.  Construction followed by destruction leaks nothing: when the
    constructor succeeds on storage that held no object, the destructor
    returns and the allocated blocks of both memories and the objects are
    those from before the construction. *)
Theorem ctor_dtor_roundtrip w this row col name min max uniform w1 :
  world_ok w -> this <> nullptr -> objects w !! this = None ->
  Matrix_ctor this row col name min max uniform w = Ok tt w1 ->
  exists w2,
    Matrix_dtor this w1 = Ok tt w2 /\
    blocks (host w2) = blocks (host w) /\
    blocks (gpu w2) = blocks (gpu w) /\
    objects w2 = objects w.
Proof.
  intros Hw Hthis Hfresh Hrun.
  pose proof Hw as [[Hhb Hh] [Hgb Hg] _ _ _].
  destruct (ctor_Ok_inv _ _ _ _ _ _ _ _ _ Hhb Hgb Hrun) as (Hr & Hc & Hn & Hfit & ->).
  pose proof (built_ok w this row col name min max uniform Hw Hthis Hr Hc Hn Hfit) as Hw1.
  eexists. split.
  - apply dtor_Ok; [done|]. unfold built. norm. done.
  - unfold built. norm. split_and!.
    + apply delete_insert_id. destruct (blocks (host w) !! brk (host w)) eqn:E; [|done].
      apply Hh in E. lia.
    + apply delete_insert_id. destruct (blocks (gpu w) !! brk (gpu w)) eqn:E; [|done].
      apply Hg in E. lia.
    + by apply delete_insert_id.
Qed.

Lemma ctor_dtor_roundtrip_witness :
  exists w2,
    Matrix_dtor obj_B world_AB = Ok tt w2 /\
    blocks (host w2) = blocks (host world_A) /\
    blocks (gpu w2) = blocks (gpu world_A) /\
    objects w2 = objects world_A.
Proof.
  apply (ctor_dtor_roundtrip world_A obj_B 2 2 "B" default_min default_max draws_B
           world_AB world_A_ok).
  - discriminate.
  - by vm_compute.
  - by vm_compute.
Defined.

(** X11.  The destructor tolerates an object whose two buffer pointers are
    null: it frees nothing, and both memories are as before. *)
Theorem dtor_null_pointers w this m :
  objects w !! this = Some m ->
  m_data m = nullptr -> m_gpu_data m = nullptr ->
  Matrix_dtor this w = Ok tt (with_objects (delete this (objects w)) w).
Proof.
  intros Hm Hd Hg. unfold Matrix_dtor.
  step_with ltac:(apply deref_Ok, Hm). rewrite Hd. cbn [non_null]. 
  change (non_null nullptr) with false. cbn iota. step. step.
  rewrite Hg. change (non_null nullptr) with false. cbn iota. step.
  done.
Qed.

Lemma dtor_null_pointers_witness :
  let m0 := set_gpu_data nullptr (set_data nullptr matrix_A) in
  let w := with_objects (<[obj_A := m0]> ∅) world0 in
  Matrix_dtor obj_A w = Ok tt (with_objects (delete obj_A (objects w)) w).
Proof.
  exact (dtor_null_pointers
           (with_objects (<[obj_A := set_gpu_data nullptr (set_data nullptr matrix_A)]> ∅)
              world0)
           obj_A (set_gpu_data nullptr (set_data nullptr matrix_A))
           (lookup_insert_eq _ _ _) eq_refl eq_refl).
Defined.

(** ** Every call keeps the invariant *)

Lemma deref_None {B} w this (k : Matrix -> M B) :
  objects w !! this = None -> (deref this ≫= k) w = Fatal InvalidAccess w.
Proof. intros H. unfold mbind, M_bind, deref. by rewrite H. Qed.

Lemma live_of_Ok w this (k : Matrix -> M unit) w' :
  (deref this ≫= k) w = Ok tt w' -> exists m, objects w !! this = Some m.
Proof.
  intros H. destruct (objects w !! this) as [m|] eqn:E; [by eauto|].
  by rewrite deref_None in H.
Qed.

Lemma guarded_Ok w base (k : unit -> M unit) w' :
  (HGEMM_CHECK (non_null base) ≫= k) w = Ok tt w' ->
  base <> nullptr /\ k tt w = Ok tt w'.
Proof.
  unfold non_null. destruct (base =? nullptr) eqn:E; simpl; [done|].
  intros H. split; [by apply Z.eqb_neq | done].
Qed.

Lemma tearUp_Ok_inv w this base w' :
  tearUp this base w = Ok tt w' ->
  exists m mb, objects w !! this = Some m /\ objects w !! base = Some mb /\
               m_row m = m_row mb /\ m_col m = m_col mb.
Proof.
  intros H. pose proof H as H0. unfold tearUp in H.
  apply guarded_Ok in H as [Hnn H].
  destruct (live_of_Ok _ _ _ _ H) as [m Hm].
  erewrite bind_Ok in H by (apply deref_Ok, Hm).
  unfold getRow at 1 in H.
  destruct (objects w !! base) as [mb|] eqn:Hmb.
  - exists m, mb. do 2 (split; [done|]).
    destruct (decide (m_row m = m_row mb)) as [Hr|Hr],
             (decide (m_col m = m_col mb)) as [Hc|Hc]; try done;
      rewrite (tearUp_mismatch w this base m mb) in H0 by tauto; done.
  - unfold mbind, M_bind, deref in H. by rewrite Hmb in H.
Qed.

Lemma checkValue_Ok_inv w this base w' :
  checkValue this base w = Ok tt w' ->
  exists m mb, objects w !! this = Some m /\ objects w !! base = Some mb /\
               m_row m = m_row mb /\ m_col m = m_col mb.
Proof.
  intros H. pose proof H as H0. unfold checkValue in H.
  apply guarded_Ok in H as [Hnn H].
  destruct (live_of_Ok _ _ _ _ H) as [m Hm].
  erewrite bind_Ok in H by (apply deref_Ok, Hm).
  unfold getRow at 1 in H.
  destruct (objects w !! base) as [mb|] eqn:Hmb.
  - exists m, mb. do 2 (split; [done|]).
    destruct (decide (m_row m = m_row mb)) as [Hr|Hr],
             (decide (m_col m = m_col mb)) as [Hc|Hc]; try done;
      rewrite (checkValue_mismatch w this base m mb) in H0 by tauto; done.
  - unfold mbind, M_bind, deref in H. by rewrite Hmb in H.
Qed.

Lemma kernel_write_ok w p content w' :
  world_ok w -> kernel_write p content w = Ok tt w' -> world_ok w'.
Proof.
  intros Hw. unfold kernel_write.
  destruct (blocks (gpu w) !! p) as [d|] eqn:Hd; [|done].
  destruct (decide (length content = length d)); [|done].
  intros [= <-]. by eapply world_ok_gpu_update.
Qed.

Lemma run_call_ok c w w' :
  world_ok w -> call_valid c -> run_call c w = Ok tt w' -> world_ok w'.
Proof.
  intros Hw Hv Hrun. destruct c as [this row col name min max uniform | this | this
    | this min max uniform | this base | this | this base | p content]; simpl in *.
  - destruct Hv as (Hthis & _ & _).
    pose proof Hw as [[Hhb _] [Hgb _] _ _ _].
    destruct (ctor_Ok_inv _ _ _ _ _ _ _ _ _ Hhb Hgb Hrun) as (Hr & Hc & Hn & Hfit & ->).
    by apply built_ok.
  - destruct (live_of_Ok _ _ _ _ Hrun) as [m Hm].
    rewrite (dtor_Ok w this m Hw Hm) in Hrun. simplify_eq. by apply destroyed_ok.
  - destruct (live_of_Ok _ _ _ _ Hrun) as [m Hm].
    rewrite <- (world_after_Ok _ _ _ _ Hrun). by eapply zeros_world_ok.
  - destruct (live_of_Ok _ _ _ _ Hrun) as [m Hm].
    rewrite <- (world_after_Ok _ _ _ _ Hrun). by eapply random_world_ok.
  - destruct (tearUp_Ok_inv _ _ _ _ Hrun) as (m & mb & Hm & Hmb & Hr & Hc).
    rewrite <- (world_after_Ok _ _ _ _ Hrun). by eapply tearUp_world_ok.
  - destruct (live_of_Ok _ _ _ _ Hrun) as [m Hm].
    rewrite <- (world_after_Ok _ _ _ _ Hrun). by eapply moveToHost_world_ok.
  - destruct (checkValue_Ok_inv _ _ _ _ Hrun) as (m & mb & Hm & Hmb & Hr & Hc).
    rewrite <- (world_after_Ok _ _ _ _ Hrun). by eapply checkValue_world_ok.
  - by eapply kernel_write_ok.
Qed.

(** X12.  The class invariant holds after every sequence of constructions,
    destructions, method calls and kernel writes that runs without fault
    from a well-formed world, when no object is constructed at the null
    pointer and the shapes passed are [size_t] values: the element count of
    every live object is the [size_t] product of its positive shape, its two
    buffers are allocated blocks of exactly that many elements at non-null
    pointers, and no two live objects share a buffer. *)
Theorem calls_keep_invariant cs : forall w w',
  world_ok w -> Forall call_valid cs -> run_calls cs w = Ok tt w' -> world_ok w'.
Proof.
  induction cs as [|c cs IH]; intros w w' Hw Hv Hrun; simpl in Hrun.
  - by injection Hrun as <-.
  - inversion Hv as [|? ? Hc Hcs]; subst.
    unfold mbind, M_bind in Hrun.
    destruct (run_call c w) as [[] w1|] eqn:E; [|done].
    eapply IH; [|done|exact Hrun]. by eapply run_call_ok.
Qed.

Lemma calls_keep_invariant_witness :
  fault_of (run_calls example_calls) world0 = None /\
  world_ok (world_after (run_calls example_calls) world0).
Proof.
  split; [by vm_compute|].
  apply (calls_keep_invariant example_calls world0 _ world0_ok).
  - unfold example_calls.
    repeat (constructor; [simpl; try done; repeat split; by vm_compute|]).
    constructor.
  - by vm_compute.
Defined.

(** X13.  A method call on [this] that returns leaves every other object
    alone, its members and the content of its two buffers, and never
    changes the shape, the element count or the two buffer pointers of
    [this]. *)
Theorem methods_frame c this w w' m :
  world_ok w -> method_of c = Some this ->
  objects w !! this = Some m ->
  run_call c w = Ok tt w' ->
  (exists m', objects w' !! this = Some m' /\
     m_row m' = m_row m /\ m_col m' = m_col m /\ m_elem_num m' = m_elem_num m /\
     m_data m' = m_data m /\ m_gpu_data m' = m_gpu_data m) /\
  (forall other mo, other <> this -> objects w !! other = Some mo ->
     objects w' !! other = Some mo /\
     host_content w' other = host_content w other /\
     device_content w' other = device_content w other).
Proof.
  intros Hw Hc Hm Hrun.
  destruct (live_buffers w this m Hw Hm) as (Hok & h & d & Hh & Hd & _).
  assert (Hsep : forall other mo, other <> this -> objects w !! other = Some mo ->
            m_data m <> m_data mo /\ m_gpu_data m <> m_gpu_data mo).
  { intros other mo Hne Hmo. by apply (ok_separate w Hw this other m mo). }
  assert (Hbuf : forall w1, objects w1 = objects w ->
    (forall p, p <> m_data m -> blocks (host w1) !! p = blocks (host w) !! p) ->
    (forall p, p <> m_gpu_data m -> blocks (gpu w1) !! p = blocks (gpu w) !! p) ->
    (exists m', objects w1 !! this = Some m' /\
       m_row m' = m_row m /\ m_col m' = m_col m /\ m_elem_num m' = m_elem_num m /\
       m_data m' = m_data m /\ m_gpu_data m' = m_gpu_data m) /\
    (forall other mo, other <> this -> objects w !! other = Some mo ->
       objects w1 !! other = Some mo /\
       host_content w1 other = host_content w other /\
       device_content w1 other = device_content w other)).
  { intros w1 Ho Hhost Hgpu. split; [exists m; by rewrite Ho|].
    intros other mo Hne Hmo. destruct (Hsep other mo Hne Hmo) as [H1 H2].
    unfold host_content, device_content. rewrite Ho, Hmo. simpl.
    by rewrite Hhost, Hgpu. }
  destruct c as [| | t | t min max uniform | t base | t | t base | ]; simpl in Hc, Hrun;
    simplify_eq.
  - rewrite (zeros_Ok w this m h d) in Hrun by done. simplify_eq.
    apply Hbuf; norm; [done|intros|intros]; by rewrite lookup_insert_ne.
  - rewrite (random_Ok w this m h d) in Hrun by done. simplify_eq.
    apply Hbuf; norm; [done|intros|done]; by rewrite lookup_insert_ne.
  - destruct (tearUp_Ok_inv _ _ _ _ Hrun) as (m0 & mb & Hm0 & Hmb & Hr & Hcl).
    simplify_eq.
    destruct (live_buffers w base mb Hw Hmb) as (Hokb & hb & db & Hhb & Hdb & _).
    assert (base <> nullptr) by (intros ->; pose proof (ok_null w Hw); congruence).
    rewrite (tearUp_Ok w this base m mb hb) in Hrun by done. simplify_eq.
    apply Hbuf; norm; [done|done|intros]; by rewrite lookup_insert_ne.
  - rewrite (moveToHost_Ok w this m h d) in Hrun by done. simplify_eq.
    apply Hbuf; norm; [done|intros|done]; by rewrite lookup_insert_ne.
  - destruct (checkValue_Ok_inv _ _ _ _ Hrun) as (m0 & mb & Hm0 & Hmb & Hr & Hcl).
    simplify_eq.
    destruct (live_buffers w base mb Hw Hmb) as (Hokb & hb & db & Hhb & Hdb & _).
    assert (base <> nullptr) by (intros ->; pose proof (ok_null w Hw); congruence).
    rewrite (checkValue_Ok w this base m mb h hb) in Hrun by done. simplify_eq.
    split; [eexists; norm; by split_and!|].
    intros other mo Hne Hmo. unfold host_content, device_content. norm.
    by rewrite lookup_insert_ne.
Qed.

Lemma methods_frame_witness :
  (exists m', objects world_torn !! obj_A = Some m' /\
     m_row m' = m_row matrix_A /\ m_col m' = m_col matrix_A /\
     m_elem_num m' = m_elem_num matrix_A /\
     m_data m' = m_data matrix_A /\ m_gpu_data m' = m_gpu_data matrix_A) /\
  (forall other mo, other <> obj_A -> objects world_AB !! other = Some mo ->
     objects world_torn !! other = Some mo /\
     host_content world_torn other = host_content world_AB other /\
     device_content world_torn other = device_content world_AB other).
Proof.
  apply (methods_frame (TearUp obj_A obj_B) obj_A world_AB world_torn matrix_A
           world_AB_ok eq_refl world_AB_A).
  by vm_compute.
Defined.

(** ** [checkValue] called again *)

(** X15.  [checkValue] starts its two statistics from 0 at every call and
    carries nothing over from an earlier comparison: after a
    [checkValue(base1)], a [checkValue(base2)] leaves exactly the world a
    [checkValue(base2)] alone leaves, with the running maximum from 0 and
    the mean of the running sum from 0 of the differences with [base2]. *)
Theorem checkValue_last_wins w this base1 base2 m mb1 mb2 h h2 :
  world_ok w ->
  objects w !! this = Some m ->
  objects w !! base1 = Some mb1 -> objects w !! base2 = Some mb2 ->
  m_row m = m_row mb1 -> m_col m = m_col mb1 ->
  m_row m = m_row mb2 -> m_col m = m_col mb2 ->
  host_content w this = Some h -> host_content w base2 = Some h2 ->
  exists w1 w2,
    checkValue this base1 w = Ok tt w1 /\
    checkValue this base2 w1 = Ok tt w2 /\
    checkValue this base2 w = Ok tt w2 /\
    stats w2 this =
      Some (running_max (abs_diffs h h2),
            mean_of (running_sum (abs_diffs h h2)) (Z.of_nat (length h))).
Proof.
  intros Hw Hm Hmb1 Hmb2 Hr1 Hc1 Hr2 Hc2 Hh Hh2.
  destruct (checkValue_result w this base2 m mb2 h h2 Hw Hm Hmb2 Hr2 Hc2 Hh Hh2)
    as (_ & _ & _ & w2 & m2 & Hrun2 & Hm2 & Hmax & Havg).
  rewrite (host_content_eq w this m Hm) in Hh.
  rewrite (host_content_eq w base2 mb2 Hmb2) in Hh2.
  destruct (live_buffers w this m Hw Hm) as (Hok & _).
  destruct (live_buffers w base1 mb1 Hw Hmb1) as (Hok1 & hb1 & db1 & Hhb1 & _).
  destruct (live_buffers w base2 mb2 Hw Hmb2) as (Hok2 & _).
  assert (Hnn : forall b mb, objects w !! b = Some mb -> b <> nullptr)
    by (intros b mb Hb ->; pose proof (ok_null w Hw); congruence).
  set (m1 := set_avg_diff (mean_of (running_sum (abs_diffs h hb1)) (m_elem_num m))
               (set_max_diff (running_max (abs_diffs h hb1)) m)).
  set (w1 := with_objects (<[this := m1]> (objects w)) w).
  assert (Hw1 : world_ok w1) by (by apply world_ok_stats).
  assert (Hm1 : objects w1 !! this = Some m1) by (subst w1; norm; done).
  assert (Hbase : exists mb', objects w1 !! base2 = Some mb' /\
            m_row mb' = m_row mb2 /\ m_col mb' = m_col mb2 /\ m_data mb' = m_data mb2).
  { subst w1. norm. destruct (decide (base2 = this)) as [->|Hne].
    - exists m1. rewrite lookup_insert_eq. by simplify_eq.
    - exists mb2. by rewrite lookup_insert_ne. }
  destruct Hbase as (mb' & Hmb' & Hr' & Hc' & Hd').
  exists w1, w2. split; [by apply (checkValue_Ok w this base1 m mb1 h hb1); eauto|].
  split; [|split; [done|]].
  - pose proof Hrun2 as E.
    rewrite (checkValue_Ok w this base2 m mb2 h h2) in E by eauto.
    injection E as E. rewrite <- E.
    rewrite (checkValue_Ok w1 this base2 m1 mb' h h2); eauto.
    + f_equal. subst w1 m1. norm. by destruct w, m.
    + by apply (ok_objects w1 Hw1 this).
    + by apply (ok_objects w1 Hw1 base2).
    + by rewrite Hr'.
    + by rewrite Hc'.
    + by rewrite Hd'.
  - unfold stats. rewrite Hm2. simpl. by rewrite Hmax, Havg.
Qed.

Lemma checkValue_last_wins_witness :
  exists w1 w2,
    checkValue obj_A obj_B world_AB = Ok tt w1 /\
    checkValue obj_A obj_A w1 = Ok tt w2 /\
    checkValue obj_A obj_A world_AB = Ok tt w2 /\
    stats w2 obj_A =
      Some (running_max (abs_diffs (drawn draws_A 4) (drawn draws_A 4)),
            mean_of (running_sum (abs_diffs (drawn draws_A 4) (drawn draws_A 4)))
              (Z.of_nat (length (drawn draws_A 4)))).
Proof.
  exact (checkValue_last_wins world_AB obj_A obj_B obj_A matrix_A matrix_B matrix_A
           (drawn draws_A 4) (drawn draws_A 4) world_AB_ok
           world_AB_A world_AB_B world_AB_A eq_refl eq_refl eq_refl eq_refl
           world_AB_host_A world_AB_host_A).
Defined.
